(** * rollup-plugin-html2: the injection decision engine of [dist/index.es.js]

    A shallow embedding of the plugin's [generateBundle] hook and of the
    helpers it calls, together with the externals check of [buildStart].
    The HTML tree of [node-html-parser] is an inductive tree; the [head] and
    [body] objects the hook keeps are paths into the tree under [html]. *)

From Stdlib Require Import String Ascii List Bool Arith Lia.
From stdpp Require Import base option list strings gmap.
Import ListNotations.
Open Scope string_scope.
Set Warnings "-register-all".

(** ** Strings as JavaScript sees them *)

Module JsString.

Definition chars (s : string) : list ascii := list_ascii_of_string s.
Definition str (l : list ascii) : string := string_of_list_ascii l.

(** [!s] is false exactly for the empty string. *)
Definition truthy (s : string) : bool :=
  match s with EmptyString => false | String _ _ => true end.

(** [s.endsWith('/')] *)
Definition endsWithSlash (s : string) : bool :=
  match rev (chars s) with
  | c :: _ => Ascii.eqb c "/"
  | [] => false
  end.

(** [s.slice(1)] *)
Definition slice1 (s : string) : string :=
  match s with EmptyString => EmptyString | String _ r => r end.

(** [s.toLowerCase()], on the letters A to Z. *)
Definition lower (c : ascii) : ascii :=
  let n := nat_of_ascii c in
  if Nat.leb 65 n && Nat.leb n 90 then ascii_of_nat (n + 32) else c.

Fixpoint toLowerCase (s : string) : string :=
  match s with
  | EmptyString => EmptyString
  | String c r => String (lower c) (toLowerCase r)
  end.

Fixpoint takeWhile {A} (p : A -> bool) (l : list A) : list A :=
  match l with
  | x :: r => if p x then x :: takeWhile p r else []
  | [] => []
  end.

Fixpoint dropWhile {A} (p : A -> bool) (l : list A) : list A :=
  match l with
  | x :: r => if p x then dropWhile p r else l
  | [] => []
  end.

End JsString.

(** ** Node's [path] module (POSIX), as far as the plugin reads it

    [path.parse(p)] is read for [name] and [ext] only, [path.extname(p)] is
    the same [ext]. The last component of the path is what follows the last
    separator, trailing separators dropped; its extension starts at its last
    dot, unless there is none, the dot is its first character, or the
    component is [".."]. *)

Module Path.
Import JsString.

Definition isSlash (c : ascii) : bool := Ascii.eqb c "/".
Definition isDot (c : ascii) : bool := Ascii.eqb c ".".

(** The last component, reversed. *)
Definition revBase (p : string) : list ascii :=
  takeWhile (fun c => negb (isSlash c)) (dropWhile isSlash (rev (chars p))).

Record parsed := { name : string; ext : string }.

Definition parse (p : string) : parsed :=
  let rb := revBase p in
  let rext := takeWhile (fun c => negb (isDot c)) rb in
  match dropWhile (fun c => negb (isDot c)) rb with
  | [] => {| name := str (rev rb); ext := "" |}
  | _dot :: [] => {| name := str (rev rb); ext := "" |}
  | _dot :: before =>
      if String.eqb (str (rev rb)) ".."
      then {| name := ".."; ext := "" |}
      else {| name := str (rev before); ext := str ("."%char :: rev rext) |}
  end.

Definition extname (p : string) : string := ext (parse p).

(** [path.basename(p)] *)
Definition basename (p : string) : string := str (rev (revBase p)).

End Path.

(** ** Option values *)

(** The [inject] option, and the [pos] argument of the tag emitter. *)
Inductive JsInject :=
| InjectUndefined
| InjectBool (b : bool)
| InjectString (s : string).

(** The [preload] option: absent, a boolean, an array or a [Set], or another
    value that is true in a condition and has no [has] method (a number, a
    string that is not empty, a plain object). An object with a [has] of its
    own that answers for names (a [Map]) stands here as the set of the names
    it answers true for. *)
Inductive JsPreload :=
| PreloadUndefined
| PreloadBool (b : bool)
| PreloadArray (l : list string)
| PreloadSet (s : gset string)
| PreloadOther.

(** A boolean option that may be absent ([modules], [nomodule]). *)
Definition truthyFlag (b : option bool) : bool := default false b.

(** An optional string is truthy when it is present and not empty. *)
Definition truthyStr (s : option string) : bool :=
  match s with Some v => JsString.truthy v | None => false end.

Inductive JsError :=
| PluginError (msg : string)   (* [this.error(msg)] *)
| TypeError (msg : string).    (* thrown by the runtime *)

(** ** Plain objects used as maps

    [entries] and [dynamicEntries] start as [{}], so they inherit the members
    of [Object.prototype]: the [in] operator sees them, and an assignment to
    [__proto__] of a string adds no property. *)

Module JsObject.

Definition objectPrototypeKeys : list string :=
  [ "constructor"; "__defineGetter__"; "__defineSetter__"; "hasOwnProperty";
    "__lookupGetter__"; "__lookupSetter__"; "isPrototypeOf";
    "propertyIsEnumerable"; "toString"; "valueOf"; "__proto__";
    "toLocaleString" ].

Definition inherited (k : string) : bool :=
  bool_decide (k ∈ objectPrototypeKeys).

(** [k in o] *)
Definition has (k : string) (o : gmap string string) : bool :=
  bool_decide (is_Some (o !! k)) || inherited k.

(** [o[k] = v] *)
Definition set (k v : string) (o : gmap string string) : gmap string string :=
  if decide (k = "__proto__") then o else <[k := v]> o.

(** [o[k]], when it is a string: an own property. An inherited member is a
    function or an object. *)
Definition get (k : string) (o : gmap string string) : option string :=
  o !! k.

End JsObject.

(** ** Small helpers of the source *)

Definition normalizePreload (preload : JsPreload) : JsPreload :=
  let preload :=
    match preload with
    | PreloadUndefined | PreloadBool false => PreloadArray []
    | _ => preload
    end in
  match preload with
  | PreloadArray l => PreloadSet (list_to_set l)
  | _ => preload
  end.

(** [preload.has(x)]: only a [Set] has the method. *)
Definition preloadHas (preload : JsPreload) (x : option string) : JsError + bool :=
  match preload with
  | PreloadSet s =>
      inr (match x with Some v => bool_decide (v ∈ s) | None => false end)
  | _ => inl (TypeError "preload.has is not a function")
  end.

(** [prefix = ''] is the default of an absent argument. *)
Definition normalizePrefix (prefix : option string) : string :=
  let prefix := default "" prefix in
  if JsString.truthy prefix && negb (JsString.endsWithSlash prefix)
  then prefix ++ "/"
  else prefix.

Definition extensionToType (ext : string) : option string :=
  if String.eqb ext "css" then Some "style"
  else if String.eqb ext "js" then Some "script"
  else None.

(** One value of the bundle: a chunk or an asset. *)
Record OutputFile := {
  type : string;
  fileName : string;
  isEntry : bool;
  isDynamicEntry : bool;
  name : string
}.

Definition isChunk (item : OutputFile) : bool := String.eqb (type item) "chunk".

Record NameIndex := {
  dynamicEntries : gmap string string;
  entries : gmap string string
}.

Definition bundleReducer (prev : NameIndex) (cur : OutputFile) : NameIndex :=
  if isChunk cur then
    let name' := Path.name (Path.parse (fileName cur)) in
    if isEntry cur then
      {| dynamicEntries := dynamicEntries prev;
         entries := JsObject.set name' (name cur) (entries prev) |}
    else if isDynamicEntry cur then
      {| dynamicEntries := JsObject.set name' (name cur) (dynamicEntries prev);
         entries := entries prev |}
    else prev
  else prev.

Definition emptyIndex : NameIndex := {| dynamicEntries := ∅; entries := ∅ |}.

(** [files.reduce(bundleReducer, {dynamicEntries: {}, entries: {}})] *)
Definition classify (files : list OutputFile) : NameIndex :=
  fold_left bundleReducer files emptyIndex.

Example parse_main : Path.parse "main.a1.js" = {| Path.name := "main.a1"; Path.ext := ".js" |}.
Proof. reflexivity. Qed.

(** ** The HTML tree of [node-html-parser]

    An [HTMLElement] has a tag name, its attributes as raw text and child
    nodes; a [TextNode] has text. An object of the tree the hook holds on to
    ([head], [body], a node found by a query) is the path of child indices
    that leads to it: appending a child and exchanging a child in place move
    no other node, so a path keeps naming the same object. *)

Inductive Node :=
| HTMLElement (tagName : string) (rawAttrs : string) (childNodes : list Node)
| TextNode (rawText : string).

Module Dom.

Definition childNodes (n : Node) : list Node :=
  match n with HTMLElement _ _ cs => cs | TextNode _ => [] end.

(** Whether [n] is an element that the selector [tag] matches: the parser
    compares tag names whatever their letter case. *)
Definition hasTag (tag : string) (n : Node) : bool :=
  match n with
  | HTMLElement t _ _ =>
      String.eqb (JsString.toLowerCase t) (JsString.toLowerCase tag)
  | TextNode _ => false
  end.

Definition setChildNodes (cs : list Node) (n : Node) : Node :=
  match n with HTMLElement t a _ => HTMLElement t a cs | TextNode _ => n end.

Fixpoint nodeAt (p : list nat) (n : Node) : option Node :=
  match p with
  | [] => Some n
  | i :: q => childNodes n !! i ≫= nodeAt q
  end.

(** Apply [f] to the object at path [p]. *)
Fixpoint alterAt (f : Node -> Node) (p : list nat) (n : Node) : Node :=
  match p with
  | [] => f n
  | i :: q => setChildNodes (alter (alterAt f q) i (childNodes n)) n
  end.

(** [node.appendChild(child)] *)
Definition appendChild (child : Node) (n : Node) : Node :=
  setChildNodes (childNodes n ++ [child])%list n.

(** [node.childNodes.unshift(child)] *)
Definition unshiftChild (child : Node) (n : Node) : Node :=
  setChildNodes (child :: childNodes n) n.

Definition next (p : option (list nat)) : option (list nat) :=
  (fun q => match q with i :: r => S i :: r | [] => [] end) <$> p.

(** [node.querySelector(tag)]: the first element below [node], in document
    order, whose tag name is [tag]. *)
Fixpoint querySelector (tag : string) (n : Node) : option (list nat) :=
  match n with
  | HTMLElement _ _ cs =>
      (fix first (cs : list Node) : option (list nat) :=
         match cs with
         | [] => None
         | c :: r =>
             if hasTag tag c then Some [0]
             else match querySelector tag c with
                  | Some p => Some (0 :: p)
                  | None => next (first r)
                  end
         end) cs
  | TextNode _ => None
  end.

Definition shift (ps : list (list nat * Node)) : list (list nat * Node) :=
  map (fun '(p, n) => (match p with i :: r => S i :: r | [] => [] end, n)) ps.

(** [node.querySelectorAll(tag)]: every element below [node] whose tag
    name is [tag], in document order, each with its path. *)
Fixpoint querySelectorAll (tag : string) (n : Node) : list (list nat * Node) :=
  match n with
  | HTMLElement _ _ cs =>
      (fix all (cs : list Node) : list (list nat * Node) :=
         match cs with
         | [] => []
         | c :: r =>
             ((if hasTag tag c then [([0], c)] else [])
              ++ map (fun '(p, n) => (0 :: p, n)) (querySelectorAll tag c)
              ++ shift (all r))%list
         end) cs
  | TextNode _ => []
  end.

(** [parent.exchangeChild(old, new)], [old] being the object at path [p]
    below [parent]: a child of [parent] is replaced where it stands, any
    other object is not among the children and nothing changes. *)
Definition exchangeChild (p : list nat) (new : Node) (parent : Node) : Node :=
  match p with
  | [i] => setChildNodes (<[i := new]> (childNodes parent)) parent
  | _ => parent
  end.

(** [getChildElement(node, tag, append)]: the node after the call and the
    path of the returned child. *)
Definition getChildElement (node : Node) (tag : string) (append : bool)
  : Node * list nat :=
  match querySelector tag node with
  | Some p => (node, p)
  | None =>
      let child := HTMLElement tag "" [] in
      if append
      then (appendChild child node, [length (childNodes node)])
      else (unshiftChild child node, [0])
  end.

End Dom.

Definition nl : string := String (ascii_of_nat 10) "  ".
Definition dq : string := String (ascii_of_nat 34) "".
Definition quoted (s : string) : string := dq ++ s ++ dq.

(** The document under construction: the tree under [html] and the [head]
    and [body] objects. *)
Record Doc := { html : Node; head : list nat; body : list nat }.

Inductive Parent := Head | Body.

Definition parentPath (d : Doc) (p : Parent) : list nat :=
  match p with Head => head d | Body => body d end.

(** [parent.appendChild(child)] for [parent] one of [head] and [body]. *)
Definition appendTo (p : Parent) (child : Node) (d : Doc) : Doc :=
  {| html := Dom.alterAt (Dom.appendChild child) (parentPath d p) (html d);
     head := head d; body := body d |}.

Definition addNewLine (p : Parent) (d : Doc) : Doc := appendTo p (TextNode nl) d.

(** [const head = getChildElement(html, 'head', false);
     const body = getChildElement(html, 'body');] *)
Definition openDoc (html0 : Node) : Doc :=
  let '(h1, hp) := Dom.getChildElement html0 "head" false in
  let '(h2, bp) := Dom.getChildElement h1 "body" true in
  {| html := h2; head := hp; body := bp |}.

(** An entry of the [externals] option. The source reads [pos], [file],
    [type] and [crossorigin]; [insertPoint] stands for the insert point of
    the specification's data model, a property the source never reads. *)
Module External.
Record t := {
  pos : option string;
  file : string;
  type : option string;
  crossorigin : option string;
  insertPoint : option string
}.
End External.

Definition ExternalPosition : list string := ["before"; "after"].
Definition Crossorigin : list string := ["anonymous"; "use-credentials"].

(** [checkEnum(enumobj, val)], [enumobj] given by [Object.values(enumobj)]. *)
Definition checkEnum (enumobj : list string) (val : option string) : bool :=
  negb (truthyStr val) || bool_decide (default "" val ∈ enumobj).

(** What is appended to a string by [+] for a value that may be absent. *)
Definition show (v : option string) : string := default "undefined" v.

(** The [externals] part of [buildStart]: the first failing check throws. *)
Fixpoint checkExternals (externals : list External.t) : JsError + unit :=
  match externals with
  | [] => inr tt
  | e :: rest =>
      if negb (checkEnum ExternalPosition (External.pos e)) then
        inl (PluginError ("Invalid position for the extrenal: " ++ show (External.pos e)))
      else if negb (checkEnum Crossorigin (External.crossorigin e)) then
        inl (PluginError ("Invalid crossorigin argument for the extrenal: "
                          ++ show (External.crossorigin e)))
      else checkExternals rest
  end.

Definition buildStartExternals (externals : option (list External.t)) : JsError + unit :=
  match externals with
  | Some l => checkExternals l
  | None => inr tt
  end.

(** ** The tag emitter *)

Definition isPos (token : string) (pos : JsInject) : bool :=
  match pos with InjectString s => String.eqb s token | _ => false end.

Definition moduleattr (modules nomodule : option bool) : string :=
  if truthyFlag modules then "type=" ++ quoted "module" ++ " "
  else if truthyFlag nomodule then "nomodule "
  else "".

Definition corsAttr (crossorigin : option string) : string :=
  if truthyStr crossorigin
  then "crossorigin=" ++ quoted (default "" crossorigin) ++ " "
  else "".

Definition linkStylesheet (cors fileName : string) : Node :=
  HTMLElement "link" ("rel=" ++ quoted "stylesheet" ++ " " ++ cors
                      ++ "href=" ++ quoted fileName) [].

Definition scriptTag (moduleattr cors fileName : string) : Node :=
  HTMLElement "script" (moduleattr ++ cors ++ "src=" ++ quoted fileName) [].

(** [injectCSSandJSFactory(head, body, modules, nomodule)]; [head] and
    [body] are those of the document the closure is applied to. *)
Definition injectCSSandJSFactory (modules nomodule : option bool)
  : string -> string -> JsInject -> option string -> Doc -> Doc :=
  let moduleattr := moduleattr modules nomodule in
  fun fileName type pos crossorigin d =>
    let cors := corsAttr crossorigin in
    if String.eqb type "css" then
      let parent := if isPos "body" pos then Body else Head in
      appendTo parent (linkStylesheet cors fileName) (addNewLine parent d)
    else
      let parent := if isPos "head" pos then Head else Body in
      appendTo parent (scriptTag moduleattr cors fileName) (addNewLine parent d).

(** [type || extname(file).slice(1)] *)
Definition externalType (e : External.t) : string :=
  if truthyStr (External.type e) then default "" (External.type e)
  else JsString.slice1 (Path.extname (External.file e)).

(** [extrenalsProcessorFactory(injectCSSandJS, externals)] *)
Definition extrenalsProcessorFactory
    (injectCSSandJS : string -> string -> JsInject -> option string -> Doc -> Doc)
    (externals : option (list External.t)) : string -> Doc -> Doc :=
  match externals with
  | None => fun _ d => d
  | Some externals =>
      fun processPos d =>
        fold_left
          (fun d e =>
             if bool_decide (External.pos e = Some processPos)
             then injectCSSandJS (External.file e) (externalType e)
                                 InjectUndefined (External.crossorigin e) d
             else d)
          externals d
  end.

(** ** The options of the plugin that [generateBundle] reads *)

Record Options := {
  inject : JsInject;
  title : option string;
  favicon : option string;
  meta : option (list (string * string));   (* [Object.entries(meta)] *)
  externals : option (list External.t);
  preload : JsPreload;
  modules : option bool;
  nomodule : option bool;
  onlinePath : option string
}.

Definition preloadLink (filePath linkType : string) : Node :=
  HTMLElement "link" ("rel=" ++ quoted "preload" ++ " href=" ++ quoted filePath
                      ++ " as=" ++ quoted linkType) [].

(** The body of [files.forEach(({ fileName }) => ...)] for one file. *)
Definition injectFile (o : Options) (idx : NameIndex) (preload : JsPreload)
    (prefix : string) (f : OutputFile) (d : Doc) : JsError + Doc :=
  let parsed := Path.parse (fileName f) in
  let injectType := JsString.slice1 (Path.ext parsed) in
  let filePath := prefix ++ fileName f in
  if JsObject.has (Path.name parsed) (entries idx) then
    inr (injectCSSandJSFactory (modules o) (nomodule o)
           filePath injectType (inject o) None d)
  else if JsObject.has (Path.name parsed) (dynamicEntries idx) then
    match preloadHas preload (JsObject.get (Path.name parsed) (dynamicEntries idx)) with
    | inl e => inl e
    | inr true =>
        match extensionToType injectType with
        | Some linkType =>
            inr (appendTo Head (preloadLink filePath linkType) (addNewLine Head d))
        | None => inr d
        end
    | inr false => inr d
    end
  else inr d.

(** [forEach] stops at the first exception. *)
Fixpoint forEachFile (step : OutputFile -> Doc -> JsError + Doc)
    (files : list OutputFile) (d : Doc) : JsError + Doc :=
  match files with
  | [] => inr d
  | f :: rest =>
      match step f d with
      | inl e => inl e
      | inr d' => forEachFile step rest d'
      end
  end.

(** [if (inject !== false) { ... }] *)
Definition injectGenerated (o : Options) (files : list OutputFile) (d : Doc)
  : JsError + Doc :=
  match inject o with
  | InjectBool false => inr d
  | _ =>
      let idx := classify files in
      let preload := normalizePreload (preload o) in
      let prefix := normalizePrefix (onlinePath o) in
      forEachFile (injectFile o idx preload prefix) files d
  end.

(** From [injectCSSandJSFactory] to the second [processExternals]. *)
Definition injectAll (o : Options) (files : list OutputFile) (d : Doc)
  : JsError + Doc :=
  let injectCSSandJS := injectCSSandJSFactory (modules o) (nomodule o) in
  let processExternals := extrenalsProcessorFactory injectCSSandJS (externals o) in
  match injectGenerated o files (processExternals "before" d) with
  | inl e => inl e
  | inr d' => inr (processExternals "after" d')
  end.

(** ** The static decorators

    Two services of the HTML parser are taken as they are: [attributes], which
    reads the value of an attribute from the raw attribute text of an
    element, and [contentNodes], the child nodes that [set_content] installs
    for a string. *)

Section Decorators.

Variable attributes : string -> string -> option string.
Variable contentNodes : string -> list Node.

(** [n.attributes[key] === value] *)
Definition attrIs (key value : string) (n : Node) : bool :=
  match n with
  | HTMLElement _ a _ => bool_decide (attributes a key = Some value)
  | TextNode _ => false
  end.

(** [nodes.find(n => n.attributes[key] === value)] *)
Definition findByAttr (key value : string) (nodes : list (list nat * Node))
  : option (list nat * Node) :=
  List.find (fun pn => attrIs key value (snd pn)) nodes.

Definition newMeta (name content : string) : Node :=
  HTMLElement "meta" ("name=" ++ quoted name ++ " content=" ++ quoted content) [].

(** One round of the [meta] loop on the [head] element. [nodes] is the
    list the query returned before the loop; [gone] lists the objects of
    [nodes] already exchanged, which are children of [head] no more. *)
Definition metaEntry (nodes : list (list nat * Node))
    (st : Node * list (list nat)) (entry : string * string)
  : Node * list (list nat) :=
  let '(h, gone) := st in
  let '(name, content) := entry in
  match findByAttr "name" name nodes with
  | Some (p, _) =>
      (if bool_decide (p ∈ gone) then h
       else Dom.exchangeChild p (newMeta name content) h,
       p :: gone)
  | None =>
      (Dom.appendChild (newMeta name content) (Dom.appendChild (TextNode nl) h),
       gone)
  end.

(** [if (meta) { ... }] *)
Definition applyMeta (meta : option (list (string * string))) (h : Node) : Node :=
  match meta with
  | Some entries =>
      fst (fold_left (metaEntry (Dom.querySelectorAll "meta" h)) entries (h, []))
  | None => h
  end.

(** [favicons.forEach(f => { ... })] *)
Definition applyMarkers (favicons : list string) (h : Node) : Node :=
  fold_left
    (fun h f => Dom.appendChild (TextNode nl) (Dom.appendChild (TextNode f) h))
    favicons h.

(** [node.set_content(title)] *)
Definition set_content (content : string) (n : Node) : Node :=
  Dom.setChildNodes (contentNodes content) n.

(** [if (title) { ... }] *)
Definition applyTitle (title : option string) (h : Node) : Node :=
  if truthyStr title then
    let title := default "" title in
    match Dom.querySelector "title" h with
    | Some p => Dom.alterAt (set_content title) p h
    | None =>
        let h := Dom.appendChild (TextNode nl) h in
        let p := [length (Dom.childNodes h)] in
        Dom.alterAt (set_content title) p
          (Dom.appendChild (HTMLElement "title" "" []) h)
    end
  else h.

Definition newLink (rel fileName : string) : Node :=
  HTMLElement "link" ("rel=" ++ quoted rel ++ " href=" ++ quoted fileName) [].

(** [if (favicon) { ... }], the emitted asset apart. *)
Definition applyFavicon (favicon : option string) (h : Node) : Node :=
  if truthyStr favicon then
    let rel := "shortcut icon" in
    let fileName := Path.basename (default "" favicon) in
    match findByAttr "rel" rel (Dom.querySelectorAll "link" h) with
    | Some (p, _) => Dom.exchangeChild p (newLink rel fileName) h
    | None =>
        Dom.appendChild (newLink rel fileName) (Dom.appendChild (TextNode nl) h)
    end
  else h.

Definition onHead (f : Node -> Node) (d : Doc) : Doc :=
  {| html := Dom.alterAt f (head d) (html d); head := head d; body := body d |}.

(** The decorators in the order of the hook. *)
Definition decorate (o : Options) (favicons : list string) (d : Doc) : Doc :=
  onHead (applyFavicon (favicon o))
    (onHead (applyTitle (title o))
       (onHead (applyMarkers favicons)
          (onHead (applyMeta (meta o)) d))).

(** [generateBundle(output, bundle)] between the parse of the template and
    the serialisation: [doc] is the parsed template, [favicons] is
    [output.__favicons_output] (empty when absent), [files] is
    [Object.values(bundle)]. The result is the tree under [html] with its
    [head] and [body]. The reading of the template file and of the favicon
    file, [minify] and [emitFile], each of which can raise an error of its
    own, are not part of it. *)
Definition generateBundle (o : Options) (favicons : list string)
    (doc : Node) (files : list OutputFile) : JsError + Doc :=
  match Dom.querySelector "html" doc ≫= (fun p => Dom.nodeAt p doc) with
  | None => inl (PluginError "The input template doesn't contain the `html` tag")
  | Some html0 => injectAll o files (decorate o favicons (openDoc html0))
  end.

End Decorators.

(** [if (modules && nomodule) this.error(...)] of [outputOptions]. *)
Definition checkModulesExclusive (modules nomodule : option bool) : JsError + unit :=
  if truthyFlag modules && truthyFlag nomodule
  then inl (PluginError "Options `modules` and `nomodule` cannot be set at the same time")
  else inr tt.

(** ** Vocabulary of the statements *)

(** The number of separators a string ends with. *)
Definition trailingSlashes (s : string) : nat :=
  length (JsString.takeWhile Path.isSlash (rev (JsString.chars s))).

(** An external as the validation is said to accept it. *)
Definition positionListed (e : External.t) : Prop :=
  External.pos e = Some "before" \/ External.pos e = Some "after".

Definition crossoriginListed (e : External.t) : Prop :=
  External.crossorigin e = None
  \/ External.crossorigin e = Some "anonymous"
  \/ External.crossorigin e = Some "use-credentials".

(** An external as the validation accepts it: an absent or empty value
    passes either check. *)
Definition positionPasses (e : External.t) : Prop :=
  External.pos e = None \/ External.pos e = Some "" \/ positionListed e.

Definition crossoriginPasses (e : External.t) : Prop :=
  External.crossorigin e = Some "" \/ crossoriginListed e.

(** A reader of attribute text made of [key="value"] and bare [key] items
    separated by spaces, the shape of every tag the plugin writes; a later
    item of the same key wins. It gives the value back as it is written,
    character references included; [DecodingAttributes] below decodes. *)
Module SimpleAttributes.

Inductive mode :=
| InKey (k : list ascii)
| Open (k : list ascii)
| InValue (k v : list ascii).

Definition item (k v : list ascii) : string * string :=
  (JsString.str (rev k), JsString.str (rev v)).

Fixpoint scan (m : mode) (l : list ascii) : list (string * string) :=
  match l with
  | [] =>
      match m with
      | InKey [] => []
      | InKey k | Open k => [item k []]
      | InValue k v => [item k v]
      end
  | c :: r =>
      match m with
      | InKey k =>
          if Ascii.eqb c " " then
            match k with [] => scan (InKey []) r | _ => item k [] :: scan (InKey []) r end
          else if Ascii.eqb c "=" then scan (Open k) r
          else scan (InKey (c :: k)) r
      | Open k =>
          if Ascii.eqb c (ascii_of_nat 34) then scan (InValue k []) r
          else scan (InKey []) r
      | InValue k v =>
          if Ascii.eqb c (ascii_of_nat 34) then item k v :: scan (InKey []) r
          else scan (InValue k (c :: v)) r
      end
  end.

Definition attributes (raw key : string) : option string :=
  snd <$> List.find (fun kv => String.eqb (fst kv) key)
                    (rev (scan (InKey []) (JsString.chars raw))).

End SimpleAttributes.

(** [set_content] of a string without markup. *)
Definition textContent (s : string) : list Node := [TextNode s].

(** A template with an empty [head] and an empty [body]. *)
Definition emptyTemplate : Node :=
  HTMLElement "html" "" [HTMLElement "head" "" []; HTMLElement "body" "" []].

Definition emptyDoc : Doc := openDoc emptyTemplate.

Definition noOptions : Options :=
  {| inject := InjectUndefined; title := None; favicon := None; meta := None;
     externals := None; preload := PreloadUndefined; modules := None;
     nomodule := None; onlinePath := None |}.

Definition chunk (fileName' name' : string) (isEntry' isDynamicEntry' : bool)
  : OutputFile :=
  {| type := "chunk"; fileName := fileName'; isEntry := isEntry';
     isDynamicEntry := isDynamicEntry'; name := name' |}.

Definition asset (fileName' : string) : OutputFile :=
  {| type := "asset"; fileName := fileName'; isEntry := false;
     isDynamicEntry := false; name := "" |}.

Definition external (pos' : option string) (file' : string) : External.t :=
  {| External.pos := pos'; External.file := file'; External.type := None;
     External.crossorigin := None; External.insertPoint := None |}.

(** The onlinePath normalisation as the specification words it: the result
    is empty or ends with exactly one separator. *)
Definition oneSeparatorOrEmpty (s : string) : Prop :=
  s = "" \/ trailingSlashes s = 1.

(** The externals validation as the specification words it: a list with an
    entry whose position or cross-origin policy is not listed is rejected. *)
Definition rejectsUnlisted (l : list External.t) : Prop :=
  (exists e, e ∈ l /\ (~ positionListed e \/ ~ crossoriginListed e)) ->
  exists msg, buildStartExternals (Some l) = inl (PluginError msg).

Definition passes (e : External.t) : Prop :=
  positionPasses e /\ crossoriginPasses e.

#[global] Instance JsInject_eq_dec : EqDecision JsInject.
Proof. solve_decision. Defined.

(** The placement of a generated tag as the specification words it: a
    stylesheet goes to body exactly when inject is the token body, a script
    goes to head exactly when inject is the token head. *)
Definition placementBySpec (inject : JsInject) (ext : string) : Parent :=
  if decide (ext = "css")
  then (if decide (inject = InjectString "body") then Body else Head)
  else (if decide (inject = InjectString "head") then Head else Body).

(** The tag of a generated entry file. *)
Definition entryTag (o : Options) (ext url : string) : Node :=
  if decide (ext = "css") then linkStylesheet "" url
  else scriptTag (moduleattr (modules o) (nomodule o)) "" url.

(** The default parent of a tag by its type: head for a stylesheet, body
    for a script. *)
Definition defaultParent (type : string) : Parent :=
  if decide (type = "css") then Head else Body.

(** The parent of an external's tag as the specification words it: the
    configured insert point when there is one, the default of the type
    otherwise. *)
Definition insertPointBySpec (e : External.t) : Parent :=
  match External.insertPoint e with
  | Some p =>
      if decide (p = "head") then Head
      else if decide (p = "body") then Body
      else defaultParent (externalType e)
  | None => defaultParent (externalType e)
  end.

Definition externalTag (modules nomodule : option bool) (e : External.t) : Node :=
  if decide (externalType e = "css")
  then linkStylesheet (corsAttr (External.crossorigin e)) (External.file e)
  else scriptTag (moduleattr modules nomodule)
                 (corsAttr (External.crossorigin e)) (External.file e).

(** One external emitted at the parent [place] gives it. *)
Definition emitExternal (place : External.t -> Parent)
    (modules nomodule : option bool) (d : Doc) (e : External.t) : Doc :=
  appendTo (place e) (externalTag modules nomodule e) (addNewLine (place e) d).

Definition atPosition (processPos : string) (l : list External.t) : list External.t :=
  filter (fun e => External.pos e = Some processPos) l.

(** The processing of the externals as the specification words it: those of
    the position, in their order, each at its insert point. *)
Definition externalsAtInsertPoint (modules nomodule : option bool)
    (l : list External.t) (processPos : string) (d : Doc) : Prop :=
  extrenalsProcessorFactory (injectCSSandJSFactory modules nomodule)
    (Some l) processPos d
  = fold_left (emitExternal insertPointBySpec modules nomodule)
      (atPosition processPos l) d.

(** An external script for which an insert point is configured. *)
Definition scriptForHead : External.t :=
  {| External.pos := Some "before"; External.file := "cdn.js";
     External.type := None; External.crossorigin := None;
     External.insertPoint := Some "head" |}.

(** The stem and the extension the loop over the files reads off a file. *)
Definition stem (f : OutputFile) : string := Path.name (Path.parse (fileName f)).

Definition extension (f : OutputFile) : string :=
  JsString.slice1 (Path.ext (Path.parse (fileName f))).

(** The error of calling [has] on a value that has no such method. *)
Definition notAFunction : JsError := TypeError "preload.has is not a function".

(** A path moved [k] children to the right. *)
Definition bump (k : nat) (pn : list nat * Node) : list nat * Node :=
  (match fst pn with i :: r => (k + i) :: r | [] => [] end, snd pn).

Definition newHead : Node := HTMLElement "head" "" [].
Definition newBody : Node := HTMLElement "body" "" [].

(** The raw attribute text of a node. *)
Definition rawAttrsOf (n : Node) : string :=
  match n with HTMLElement _ a _ => a | TextNode _ => "" end.

(** ** Where a merge by key finds its element

    For the children [cs] of [head], a tag and an attribute: whether a child
    is itself an element of the tag with the value, whether one stands below
    it, and the first child for which either holds, with which of the two. *)

Section Matching.

Variable attributes : string -> string -> option string.
Variables (tag key : string).

Definition selfIs (value : string) (c : Node) : bool :=
  Dom.hasTag tag c && attrIs attributes key value c.

Definition belowIs (value : string) (c : Node) : bool :=
  existsb (fun pn => attrIs attributes key value (snd pn))
          (Dom.querySelectorAll tag c).

Fixpoint firstMatch (value : string) (cs : list Node) : option (nat * bool) :=
  match cs with
  | [] => None
  | c :: r =>
      if selfIs value c then Some (0, true)
      else if belowIs value c then Some (0, false)
      else (fun ib => (S (fst ib), snd ib)) <$> firstMatch value r
  end.

End Matching.

(** ** The state of the meta loop

    [cs] are the children of [head] before the loop, [done] the entries
    gone through, [cur] the children and [gone] the exchanged objects after
    them. *)

Section MetaLoop.

Variable attributes : string -> string -> option string.
Variable cs : list Node.

Definition firstMeta : string -> list Node -> option (nat * bool) :=
  firstMatch attributes "meta" "name".

Record metaInv (done : list (string * string)) (cur : list Node)
    (gone : list (list nat)) : Prop := {
  inv_kept : forall k r, firstMeta k cs = Some r -> firstMeta k cur = Some r;
  inv_none : forall k, firstMeta k cs = None -> k ∉ done.*1 ->
                       firstMeta k cur = None;
  inv_done : forall k c i, (k, c) ∈ done -> firstMeta k cur = Some (i, true) ->
                           cur !! i = Some (newMeta k c);
  inv_some : forall k c, (k, c) ∈ done -> firstMeta k cur <> None;
  inv_gone : forall i, [i] ∈ gone ->
                       exists k, k ∈ done.*1 /\ firstMeta k cs = Some (i, true);
  inv_orig : forall i old, cs !! i = Some old ->
                           cur !! i = Some old
                           \/ exists k, k ∈ done.*1 /\ firstMeta k cs = Some (i, true)
}.

End MetaLoop.

(** Every meta element among the children is without child nodes. *)
Definition voidMetas (cs : list Node) : Prop :=
  Forall (fun x => Dom.hasTag "meta" x = true -> Dom.childNodes x = []) cs.

(** The attribute reader gives back the name a meta element is built with. *)
Definition readsNames (attributes : string -> string -> option string)
    (entries : list (string * string)) : Prop :=
  Forall (fun e => attributes (rawAttrsOf (newMeta (fst e) (snd e))) "name"
                   = Some (fst e)) entries.

(** A template whose head holds a description already, and options that
    decorate it. *)
Definition describedTemplate : Node :=
  HTMLElement "html" ""
    [HTMLElement "head" ""
       [HTMLElement "meta" ("name=" ++ quoted "description" ++ " content="
                            ++ quoted "old") []];
     HTMLElement "body" "" []].

Definition decorating : Options :=
  {| inject := InjectUndefined; title := Some "Demo";
     favicon := Some "img/favicon.ico";
     meta := Some [("description", "demo"); ("author", "me")];
     externals := None; preload := PreloadUndefined; modules := None;
     nomodule := None; onlinePath := None |}.

(** ** The hooks that run before the emission *)

(** A value of an option whose type is not known beforehand: absent, a
    boolean, or anything else, given by the text [JSON.stringify] makes of
    it. *)
Inductive JsValue :=
| VUndefined
| VBool (b : bool)
| VOther (json : string).

Definition formatSupportsModules (f : option string) : bool :=
  bool_decide (f = Some "es") || bool_decide (f = Some "esm")
  || bool_decide (f = Some "module").

(** [checkBoolean(context, name, value)] *)
Definition checkBoolean (name : string) (value : JsValue) : JsError + unit :=
  match value with
  | VOther json =>
      inl (PluginError ("Invalid `" ++ name ++ "` argument: " ++ json))
  | _ => inr tt
  end.

(** [checkModulesOption(context, name, format, value)] *)
Definition checkModulesOption (name : string) (format : option string)
    (value : bool) : JsError + unit :=
  if value then
    inl (PluginError ("The `" ++ name
                      ++ "` option is set to true but the output.format is "
                      ++ show format
                      ++ ", consider to use another format or switch off the option"))
  else inr tt.

(** The part of [outputOptions] after the file name is settled. *)
Definition outputOptionsModules (modules nomodule : option bool)
    (format : option string) : JsError + unit :=
  match checkModulesExclusive modules nomodule with
  | inl e => inl e
  | inr _ =>
      let modulesSupport := formatSupportsModules format in
      match checkModulesOption "modules" format
              (truthyFlag modules && negb modulesSupport) with
      | inl e => inl e
      | inr _ =>
          checkModulesOption "nomodule" format
            (truthyFlag nomodule && modulesSupport)
      end
  end.

(** [buildStart]. The file system is read through [existsSync] and through
    [isFile], which is [lstatSync(p).isFile()]; what the hook tells the
    bundler is gathered in the result. *)
Module BuildStart.

Record t := {
  template : string;
  deprecatedFileOption : option string;
  htmlFileName : option string;
  favicon : option string;
  inject : JsInject;
  externals : option (list External.t);
  modules : JsValue;
  nomodule : JsValue;
  options : list string            (* [Object.keys(options)] *)
}.

Record done := {
  watchFiles : list string;        (* [this.addWatchFile] *)
  templateIsFile : bool;           (* [this.cache.set] *)
  warnings : list string           (* [this.warn] *)
}.

Definition checkInject (inject : JsInject) : JsError + unit :=
  match inject with
  | InjectString s =>
      if negb (String.eqb s "head" || String.eqb s "body")
      then inl (PluginError ("Invalid inject argument: " ++ s))
      else inr tt
  | _ => inr tt
  end.

Definition run (existsSync isFile : string -> bool) (o : t) : JsError + done :=
  if truthyStr (deprecatedFileOption o) then
    inl (PluginError "The `file` option is deprecated, use the `fileName` instead.")
  else
    let templateIsFile := existsSync (template o) in
    let watched := templateIsFile && isFile (template o) in
    if negb watched && negb (truthyStr (htmlFileName o)) then
      inl (PluginError
             "When `template` is an HTML string the `fileName` option must be defined")
    else if truthyStr (favicon o)
            && negb (existsSync (default "" (favicon o))
                     && isFile (default "" (favicon o))) then
      inl (PluginError "The provided favicon file does't exist")
    else
      match checkInject (inject o) with
      | inl e => inl e
      | inr _ =>
          match buildStartExternals (externals o) with
          | inl e => inl e
          | inr _ =>
              match checkBoolean "modules" (modules o) with
              | inl e => inl e
              | inr _ =>
                  match checkBoolean "nomodule" (nomodule o) with
                  | inl e => inl e
                  | inr _ =>
                      inr {| watchFiles := if watched then [template o] else [];
                             templateIsFile := templateIsFile;
                             warnings :=
                               map (fun k => "Ignoring unknown option " ++ quoted k)
                                   (options o) |}
                  end
              end
          end
      end.

End BuildStart.


(** The chunks of a bundle that give a stem to [entries], and those that give
    it to [dynamicEntries]. *)
Definition entryChunk (k : string) (f : OutputFile) : bool :=
  isChunk f && isEntry f && String.eqb (stem f) k.

Definition dynamicChunk (k : string) (f : OutputFile) : bool :=
  isChunk f && negb (isEntry f) && isDynamicEntry f && String.eqb (stem f) k.

(** Two paths that part at some child index: neither object is the other
    nor stands below it. *)
Fixpoint diverge (p q : list nat) : bool :=
  match p, q with
  | i :: p', j :: q' => if Nat.eqb i j then diverge p' q' else true
  | _, _ => false
  end.

(** The nodes the tag emitter adds for a list of tags: each tag after a line
    break. *)
Definition lines (tags : list Node) : list Node :=
  flat_map (fun x => [TextNode nl; x]) tags.

Definition isTag (x : Node) : bool := Dom.hasTag "link" x || Dom.hasTag "script" x.

(** [d'] is [d] with tags added at the end of head and of body, and nothing
    else of the two changed. *)
Definition tagsAdded (d d' : Doc) : Prop :=
  head d' = head d /\ body d' = body d
  /\ forall p t a cs,
       Dom.nodeAt (parentPath d p) (html d) = Some (HTMLElement t a cs) ->
       exists tags, Forall (fun x => isTag x = true) tags
                    /\ Dom.nodeAt (parentPath d p) (html d')
                       = Some (HTMLElement t a (cs ++ lines tags)).

(** ** The statements that the code does not bear out, as they are worded *)

(** The tag of a generated entry file, written out. *)
Definition fileTag (o : Options) (f : OutputFile) : Node :=
  let url := normalizePrefix (onlinePath o) ++ fileName f in
  if decide (extension f = "css")
  then HTMLElement "link" ("rel=" ++ quoted "stylesheet" ++ " href=" ++ quoted url) []
  else HTMLElement "script"
         (moduleattr (modules o) (nomodule o) ++ "src=" ++ quoted url) [].

(** The element at path [parent] of the tree [n] has the tag among its
    children, after a line break. *)
Definition holdsTag (parent : list nat) (tag : Node) (n : Node) : Prop :=
  exists t a before after,
    Dom.nodeAt parent n
    = Some (HTMLElement t a (before ++ [TextNode nl; tag] ++ after)).

(** The injection of co-named files as the specification words it: whenever
    a chunk marked isEntry is among the files, the injection returns a
    document that holds the tag of every file of its stem. *)
Definition conamedInjected (o : Options) (files : list OutputFile) (d : Doc) : Prop :=
  forall e f,
    e ∈ files -> isChunk e = true -> isEntry e = true ->
    f ∈ files -> stem f = stem e ->
    exists d',
      injectAll o files d = inr d'
      /\ holdsTag (parentPath d (placementBySpec (inject o) (extension f)))
           (fileTag o f) (html d').

Definition appBundle : list OutputFile :=
  [chunk "lazy-7c.js" "lazy" false true; chunk "app.js" "app" true false;
   asset "app.css"].

Definition preloadTrue : Options :=
  {| inject := InjectUndefined; title := None; favicon := None; meta := None;
     externals := None; preload := PreloadBool true; modules := None;
     nomodule := None; onlinePath := None |}.

Definition injectFalse : Options :=
  {| inject := InjectBool false; title := None; favicon := None; meta := None;
     externals := None; preload := PreloadUndefined; modules := None;
     nomodule := None; onlinePath := None |}.

(** The creation of head and body as the specification words it, in the
    least it says: an html element none of whose children is a head or a
    body gets the created head as its first child. *)
Definition createdForChildless (html0 : Node) : Prop :=
  Forall (fun c => Dom.hasTag "head" c = false /\ Dom.hasTag "body" c = false)
         (Dom.childNodes html0) ->
  exists rest, Dom.childNodes (html (openDoc html0)) = newHead :: rest.

(** A template whose head and body stand below a child of html. *)
Definition nestedTemplate : Node :=
  HTMLElement "html" ""
    [HTMLElement "div" "" [HTMLElement "head" "" []; HTMLElement "body" "" []]].

(** The attribute reader of the parser decodes character references in the
    values it returns; here the reference [&amp;]. *)
Module DecodingAttributes.

Fixpoint decode (s : string) : string :=
  match s with
  | String "&" (String "a" (String "m" (String "p" (String ";" r)))) =>
      String "&" (decode r)
  | String c r => String c (decode r)
  | EmptyString => EmptyString
  end.

Definition attributes (raw key : string) : option string :=
  decode <$> SimpleAttributes.attributes raw key.

End DecodingAttributes.



(** The element at [path], which had [n0] children in the document [d0],
    has in [d] as many children in their place, followed by the nodes [A];
    head and body are the objects they were. *)
Definition keptAt (d0 : Doc) (path : list nat) (t a : string) (n0 : nat)
    (d : Doc) (A : list Node) : Prop :=
  head d = head d0 /\ body d = body d0
  /\ exists O, length O = n0
               /\ Dom.nodeAt path (html d) = Some (HTMLElement t a (O ++ A)).

(** * Properties *)

(** ** The path prefix *)

Section Prefix.
Import JsString.

Lemma chars_append (s t : string) : chars (s ++ t) = (chars s ++ chars t)%list.
Proof. induction s as [|c s IH]; simpl; [reflexivity | now rewrite <- IH]. Qed.

Lemma trailingSlashes_add (s : string) :
  trailingSlashes (s ++ "/") = S (trailingSlashes s).
Proof.
  unfold trailingSlashes. rewrite chars_append, rev_app_distr. reflexivity.
Qed.

Lemma endsWithSlash_trailing (s : string) :
  endsWithSlash s = negb (Nat.eqb (trailingSlashes s) 0).
Proof.
  unfold endsWithSlash, trailingSlashes.
  destruct (rev (chars s)) as [|c r]; simpl; [reflexivity|].
  unfold Path.isSlash. destruct (Ascii.eqb c "/"); reflexivity.
Qed.

Lemma truthy_nonempty (s : string) : truthy s = true <-> s <> "".
Proof. destruct s; simpl; split; congruence. Qed.

End Prefix.

(** C5, as stated, fails: separators the option already ends with are kept,
    so ["a//"] comes back with two of them. *)
Lemma normalizePrefix_keeps_separators :
  ~ oneSeparatorOrEmpty (normalizePrefix (Some "a//")).
Proof.
  intros [H | H]; vm_compute in H; discriminate H.
Qed.

(** C5, amended: an unset or empty onlinePath gives the empty string; any
    other value comes back ending with a separator, which is appended when
    the value does not end with one and is left as it is, with every
    separator it ends with, otherwise. *)
Theorem normalizePrefix_separator (onlinePath : option string) :
  let s := default "" onlinePath in
  (s = "" /\ normalizePrefix onlinePath = "")
  \/ (s <> "" /\ trailingSlashes s = 0
      /\ normalizePrefix onlinePath = s ++ "/"
      /\ trailingSlashes (normalizePrefix onlinePath) = 1)
  \/ (s <> "" /\ 0 < trailingSlashes s
      /\ normalizePrefix onlinePath = s
      /\ JsString.endsWithSlash (normalizePrefix onlinePath) = true).
Proof.
  intros s. unfold normalizePrefix. fold s.
  destruct (JsString.truthy s) eqn:Ht; simpl.
  - apply truthy_nonempty in Ht.
    rewrite (endsWithSlash_trailing s).
    destruct (trailingSlashes s) as [|k] eqn:Hk; simpl.
    + right; left. repeat split; auto. now rewrite trailingSlashes_add, Hk.
    + right; right. repeat split; auto; [lia|].
      rewrite endsWithSlash_trailing, Hk. reflexivity.
  - left. destruct s; [split; reflexivity | discriminate].
Qed.

(** ** The externals validation of [buildStart] *)

Section Validation.

Lemma checkEnum_position (e : External.t) :
  checkEnum ExternalPosition (External.pos e) = true <-> positionPasses e.
Proof.
  unfold checkEnum, positionPasses, positionListed, ExternalPosition.
  destruct (External.pos e) as [[|c s]|]; simpl.
  - split; auto.
  - rewrite bool_decide_eq_true, !elem_of_cons, elem_of_nil.
    split.
    + intros [-> | [-> | []]]; auto.
    + intros [H | [H | [H | H]]]; inversion H; auto.
  - split; auto.
Qed.

Lemma checkEnum_crossorigin (e : External.t) :
  checkEnum Crossorigin (External.crossorigin e) = true <-> crossoriginPasses e.
Proof.
  unfold checkEnum, crossoriginPasses, crossoriginListed, Crossorigin.
  destruct (External.crossorigin e) as [[|c s]|]; simpl.
  - split; auto.
  - rewrite bool_decide_eq_true, !elem_of_cons, elem_of_nil.
    split.
    + intros [-> | [-> | []]]; auto.
    + intros [H | [H | [H | H]]]; inversion H; auto.
  - split; auto.
Qed.

Lemma checkExternals_ok (l : list External.t) :
  Forall passes l -> checkExternals l = inr tt.
Proof.
  induction 1 as [|e l [Hp Hc] _ IH]; simpl; [reflexivity|].
  apply checkEnum_position in Hp. apply checkEnum_crossorigin in Hc.
  now rewrite Hp, Hc.
Qed.

Lemma checkExternals_error (l : list External.t) :
  Exists (fun e => ~ passes e) l ->
  exists msg, checkExternals l = inl (PluginError msg).
Proof.
  induction l as [|e l IH]; intros H; [inversion H|]. simpl.
  destruct (checkEnum ExternalPosition (External.pos e)) eqn:Hp; simpl; [|eauto].
  destruct (checkEnum Crossorigin (External.crossorigin e)) eqn:Hc; simpl; [|eauto].
  apply IH. inversion H as [? ? Hbad | ]; subst; [|assumption].
  exfalso. apply Hbad. split.
  - now apply checkEnum_position.
  - now apply checkEnum_crossorigin.
Qed.

End Validation.

(** C6, as stated, fails: an external without a position is not one of
    before and after, and the validation lets it pass. *)
Lemma checkExternals_accepts_missing_position :
  ~ rejectsUnlisted [external None "a.js"].
Proof.
  intros H. destruct H as [msg Hmsg].
  - exists (external None "a.js"). split; [apply list_elem_of_here|].
    left. intros [Hp | Hp]; discriminate Hp.
  - discriminate Hmsg.
Qed.

(** C6, amended: the validation raises a fatal error exactly when some
    entry has a non-empty position other than before and after, or a
    non-empty cross-origin policy other than anonymous and use-credentials;
    an absent or empty value passes either check; a list that passes is
    left as it is (the check returns nothing). *)
Theorem buildStartExternals_passes_or_rejects (l : list External.t) :
  (Forall passes l /\ buildStartExternals (Some l) = inr tt)
  \/ (Exists (fun e => ~ passes e) l
      /\ exists msg, buildStartExternals (Some l) = inl (PluginError msg)).
Proof.
  destruct (Forall_Exists_dec passes (fun e => ~ passes e)) with (l := l)
    as [Hall | Hex].
  - intros e. destruct (checkEnum ExternalPosition (External.pos e)) eqn:Hp;
      destruct (checkEnum Crossorigin (External.crossorigin e)) eqn:Hc.
    + left. split; [now apply checkEnum_position | now apply checkEnum_crossorigin].
    + right. intros [_ H]. apply checkEnum_crossorigin in H. congruence.
    + right. intros [H _]. apply checkEnum_position in H. congruence.
    + right. intros [H _]. apply checkEnum_position in H. congruence.
  - left. split; [assumption | now apply checkExternals_ok].
  - right. split; [assumption | now apply checkExternals_error].
Qed.

(** ** Objects of the tree and their paths *)

Section Tree.

Lemma nodeAt_alterAt (f : Node -> Node) (p : list nat) (n x : Node) :
  Dom.nodeAt p n = Some x -> Dom.nodeAt p (Dom.alterAt f p n) = Some (f x).
Proof.
  revert n. induction p as [|i q IH]; intros n H; simpl in *.
  - congruence.
  - destruct n as [t a cs|s]; simpl in *; [|discriminate].
    rewrite list_lookup_alter_eq.
    destruct (cs !! i) as [c|]; simpl in *; [|discriminate].
    now apply IH.
Qed.

Lemma nodeAt_appendTo (p : Parent) (child : Node) (d : Doc) t a cs :
  Dom.nodeAt (parentPath d p) (html d) = Some (HTMLElement t a cs) ->
  Dom.nodeAt (parentPath d p) (html (appendTo p child d))
  = Some (HTMLElement t a (cs ++ [child])).
Proof.
  intros H. unfold appendTo; simpl.
  now rewrite (nodeAt_alterAt _ _ _ _ H).
Qed.

Lemma parentPath_appendTo (p q : Parent) (child : Node) (d : Doc) :
  parentPath (appendTo p child d) q = parentPath d q.
Proof. destruct q; reflexivity. Qed.

(** A line break and a tag appended to [head] or to [body] become the
    last two children of that element. *)
Lemma nodeAt_tag_appended (p : Parent) (tag : Node) (d : Doc) t a cs :
  Dom.nodeAt (parentPath d p) (html d) = Some (HTMLElement t a cs) ->
  Dom.nodeAt (parentPath d p) (html (appendTo p tag (addNewLine p d)))
  = Some (HTMLElement t a (cs ++ [TextNode nl; tag])).
Proof.
  intros H. unfold addNewLine.
  pose proof (nodeAt_appendTo p (TextNode nl) d _ _ _ H) as H1.
  rewrite <- (parentPath_appendTo p p (TextNode nl) d) in H1 |- *.
  rewrite (nodeAt_appendTo p tag _ _ _ _ H1).
  now rewrite <- app_assoc.
Qed.

Lemma isPos_true (token : string) (pos : JsInject) :
  isPos token pos = true <-> pos = InjectString token.
Proof.
  destruct pos as [|b|s]; simpl; try (split; [discriminate|congruence]).
  rewrite String.eqb_eq. split; congruence.
Qed.

Lemma isPos_decide (token : string) (pos : JsInject) :
  isPos token pos = bool_decide (pos = InjectString token).
Proof.
  destruct (isPos token pos) eqn:H; symmetry.
  - apply bool_decide_eq_true, isPos_true, H.
  - apply bool_decide_eq_false. intros E. apply isPos_true in E. congruence.
Qed.

(** The emitter, by the placement and the tag of the statements. *)
Lemma injectCSSandJS_entry (o : Options) (url ext : string) (d : Doc) :
  injectCSSandJSFactory (modules o) (nomodule o) url ext (inject o) None d
  = appendTo (placementBySpec (inject o) ext) (entryTag o ext url)
      (addNewLine (placementBySpec (inject o) ext) d).
Proof.
  unfold injectCSSandJSFactory, placementBySpec, entryTag.
  rewrite !isPos_decide.
  destruct (String.eqb_spec ext "css") as [E|E];
    repeat case_bool_decide; repeat case_decide; congruence || reflexivity.
Qed.

End Tree.

(** ** Generated entry files *)

(** C1: a generated file whose stem is in [entries] gets its tag, after a
    line break, as the last child of body when it is a stylesheet and inject
    is the token body or when it is a script and inject is not the token
    head, and as the last child of head otherwise. *)
Theorem injectFile_placement (o : Options) (idx : NameIndex)
    (preload : JsPreload) (prefix : string) (f : OutputFile) (d : Doc)
    (t a : string) (cs : list Node) :
  let parsed := Path.parse (fileName f) in
  let ext := JsString.slice1 (Path.ext parsed) in
  let parent := placementBySpec (inject o) ext in
  let tag := entryTag o ext (prefix ++ fileName f) in
  JsObject.has (Path.name parsed) (entries idx) = true ->
  Dom.nodeAt (parentPath d parent) (html d) = Some (HTMLElement t a cs) ->
  exists d',
    injectFile o idx preload prefix f d = inr d'
    /\ d' = appendTo parent tag (addNewLine parent d)
    /\ Dom.nodeAt (parentPath d' parent) (html d')
       = Some (HTMLElement t a (cs ++ [TextNode nl; tag]))
    /\ (ext = "css" ->
        tag = linkStylesheet "" (prefix ++ fileName f)
        /\ (parent = Body <-> inject o = InjectString "body"))
    /\ (ext <> "css" ->
        tag = scriptTag (moduleattr (modules o) (nomodule o)) ""
                        (prefix ++ fileName f)
        /\ (parent = Head <-> inject o = InjectString "head")).
Proof.
  intros parsed ext parent tag Hin Hat.
  exists (appendTo parent tag (addNewLine parent d)).
  split; [|split; [reflexivity|split; [|split]]].
  - unfold injectFile. fold parsed. rewrite Hin. fold ext.
    now rewrite injectCSSandJS_entry.
  - unfold addNewLine. rewrite !parentPath_appendTo.
    now apply nodeAt_tag_appended.
  - intros E. subst parent tag. unfold placementBySpec, entryTag.
    rewrite !decide_True by assumption.
    split; [reflexivity|]. case_decide; split; congruence.
  - intros E. subst parent tag. unfold placementBySpec, entryTag.
    rewrite !decide_False by assumption.
    split; [reflexivity|]. case_decide; split; congruence.
Qed.

Lemma injectFile_placement_witness :
  let f := chunk "main.a1.js" "main" true false in
  let tag := scriptTag "" "" "main.a1.js" in
  JsObject.has "main.a1" (entries (classify [f])) = true
  /\ Dom.nodeAt [1] (html emptyDoc) = Some (HTMLElement "body" "" [])
  /\ exists d',
      injectFile noOptions (classify [f]) (PreloadSet ∅) "" f emptyDoc = inr d'
      /\ Dom.nodeAt [1] (html d')
         = Some (HTMLElement "body" "" [TextNode nl; tag]).
Proof.
  intros f tag.
  split; [vm_compute; reflexivity|]. split; [reflexivity|].
  destruct (injectFile_placement noOptions (classify [f]) (PreloadSet ∅) "" f
              emptyDoc "body" "" [])
    as (d' & H1 & -> & H3 & _); [vm_compute; reflexivity | reflexivity |].
  eexists. split; [exact H1 | exact H3].
Defined.

(** ** Externals *)

Section Externals.

Variables modules nomodule : option bool.

Let processExternals :=
  extrenalsProcessorFactory (injectCSSandJSFactory modules nomodule).

(** The emitter called as the externals processor calls it. *)
Lemma injectCSSandJS_external (e : External.t) (d : Doc) :
  injectCSSandJSFactory modules nomodule (External.file e) (externalType e)
    InjectUndefined (External.crossorigin e) d
  = emitExternal (fun e => defaultParent (externalType e)) modules nomodule d e.
Proof.
  unfold injectCSSandJSFactory, emitExternal, externalTag, defaultParent.
  destruct (String.eqb_spec (externalType e) "css") as [E|E];
    repeat case_decide; congruence || reflexivity.
Qed.

Lemma processExternals_filter (l : list External.t) (processPos : string) (d : Doc) :
  processExternals (Some l) processPos d
  = fold_left (emitExternal (fun e => defaultParent (externalType e)) modules nomodule)
      (atPosition processPos l) d.
Proof.
  unfold processExternals, extrenalsProcessorFactory, atPosition.
  revert d. induction l as [|e l IH]; intros d; [reflexivity|].
  rewrite filter_cons. simpl. case_bool_decide as Hpos.
  - rewrite decide_True by assumption. simpl.
    now rewrite IH, injectCSSandJS_external.
  - rewrite decide_False by assumption. apply IH.
Qed.

Lemma processExternals_app (l1 l2 : list External.t) (processPos : string) (d : Doc) :
  processExternals (Some (l1 ++ l2)%list) processPos d
  = processExternals (Some l2) processPos (processExternals (Some l1) processPos d).
Proof.
  unfold processExternals, extrenalsProcessorFactory. apply fold_left_app.
Qed.

End Externals.

(** C3, as stated, fails: an external script configured for head is
    appended to body all the same. *)
Lemma external_insert_point_ignored :
  ~ externalsAtInsertPoint None None [scriptForHead] "before" emptyDoc.
Proof.
  unfold externalsAtInsertPoint. intros H. vm_compute in H.
  discriminate H.
Qed.

(** C3, amended: the externals of a position are emitted in their order,
    each at the default of its type (head for a stylesheet, body for a
    script) whatever insert point it carries, with the cross-origin
    attribute when a non-empty one is configured; those of the position
    before go in ahead of the generated tags and those of the position after
    behind them. *)
Theorem externals_at_default_parent (o : Options) (files : list OutputFile)
    (l : list External.t) (processPos : string) (d : Doc) :
  let process :=
    extrenalsProcessorFactory (injectCSSandJSFactory (modules o) (nomodule o)) in
  process (Some l) processPos d
  = fold_left
      (emitExternal (fun e => defaultParent (externalType e)) (modules o) (nomodule o))
      (atPosition processPos l) d
  /\ (forall c s, corsAttr (Some (String c s))
                  = "crossorigin=" ++ quoted (String c s) ++ " ")
  /\ corsAttr None = ""
  /\ injectAll o files d
     = match injectGenerated o files (process (externals o) "before" d) with
       | inl err => inl err
       | inr d' => inr (process (externals o) "after" d')
       end.
Proof.
  intros process. split; [apply processExternals_filter|].
  split; [reflexivity|]. split; reflexivity.
Qed.

(** C9: the externals go through the same emitter as the generated files,
    so an external of script type, wherever it stands in the list, gets a
    script tag opened by [type="module"] when modules is on and by the bare
    [nomodule] when nomodule is on (the two options cannot be on together,
    [outputOptions] rejects that). *)
Theorem external_script_module_attr (modules nomodule : option bool)
    (l1 l2 : list External.t) (e : External.t) (processPos : string) (d : Doc) :
  let process :=
    extrenalsProcessorFactory (injectCSSandJSFactory modules nomodule) in
  let rest := corsAttr (External.crossorigin e)
              ++ "src=" ++ quoted (External.file e) in
  External.pos e = Some processPos ->
  externalType e <> "css" ->
  checkModulesExclusive modules nomodule = inr tt ->
  exists attr,
    process (Some (l1 ++ e :: l2)%list) processPos d
    = process (Some l2) processPos
        (appendTo Body (HTMLElement "script" (attr ++ rest) [])
           (addNewLine Body (process (Some l1) processPos d)))
    /\ (modules = Some true -> attr = "type=" ++ quoted "module" ++ " ")
    /\ (nomodule = Some true -> attr = "nomodule ").
Proof.
  intros process rest Hpos Hscript Hexcl.
  exists (moduleattr modules nomodule). split; [|split].
  - subst process. rewrite (processExternals_app modules nomodule l1 (e :: l2)).
    change (e :: l2) with ([e] ++ l2)%list.
    rewrite (processExternals_app modules nomodule [e] l2).
    f_equal.
    generalize (extrenalsProcessorFactory (injectCSSandJSFactory modules nomodule)
                  (Some l1) processPos d).
    intros d1. unfold extrenalsProcessorFactory. simpl.
    rewrite bool_decide_eq_true_2 by assumption.
    rewrite injectCSSandJS_external.
    unfold emitExternal, externalTag, defaultParent.
    rewrite !decide_False by assumption. reflexivity.
  - intros ->. reflexivity.
  - intros ->. unfold checkModulesExclusive in Hexcl.
    destruct modules as [[|]|]; simpl in *; try reflexivity. discriminate.
Qed.

Lemma external_script_module_attr_witness :
  let e := external (Some "before") "cdn.js" in
  External.pos e = Some "before"
  /\ externalType e <> "css"
  /\ checkModulesExclusive (Some true) None = inr tt
  /\ Dom.nodeAt [1]
       (html (extrenalsProcessorFactory
                (injectCSSandJSFactory (Some true) None) (Some [e]) "before" emptyDoc))
     = Some (HTMLElement "body" ""
               [TextNode nl;
                HTMLElement "script"
                  ("type=" ++ quoted "module" ++ " src=" ++ quoted "cdn.js") []]).
Proof.
  intros e.
  split; [reflexivity|]. split; [vm_compute; discriminate|]. split; [reflexivity|].
  destruct (external_script_module_attr (Some true) None [] [] e "before" emptyDoc)
    as (attr & Hrun & Hmod & _);
    [reflexivity | vm_compute; discriminate | reflexivity |].
  simpl app in Hrun. rewrite Hrun, (Hmod eq_refl). reflexivity.
Defined.

(** ** The name index *)

Section Index.

Lemma has_set_same (k v : string) (o : gmap string string) :
  JsObject.has k (JsObject.set k v o) = true.
Proof.
  unfold JsObject.has, JsObject.set. case_decide as E.
  - subst k. apply orb_true_iff. right. reflexivity.
  - apply orb_true_iff. left. apply bool_decide_eq_true.
    rewrite lookup_insert_eq. eauto.
Qed.

Lemma has_set_mono (k k' v : string) (o : gmap string string) :
  JsObject.has k o = true -> JsObject.has k (JsObject.set k' v o) = true.
Proof.
  unfold JsObject.has, JsObject.set. intros H. case_decide; [exact H|].
  apply orb_true_iff in H. apply orb_true_iff.
  destruct H as [H|H]; [left|right; exact H].
  apply bool_decide_eq_true in H. apply bool_decide_eq_true.
  destruct (decide (k' = k)) as [->|Hne].
  - rewrite lookup_insert_eq. eauto.
  - now rewrite lookup_insert_ne.
Qed.

Lemma bundleReducer_entries_mono (k : string) (idx : NameIndex) (f : OutputFile) :
  JsObject.has k (entries idx) = true ->
  JsObject.has k (entries (bundleReducer idx f)) = true.
Proof.
  intros H. unfold bundleReducer.
  destruct (isChunk f), (isEntry f), (isDynamicEntry f); simpl; auto using has_set_mono.
Qed.

Lemma fold_entries_mono (k : string) (files : list OutputFile) (idx : NameIndex) :
  JsObject.has k (entries idx) = true ->
  JsObject.has k (entries (fold_left bundleReducer files idx)) = true.
Proof.
  revert idx. induction files as [|f files IH]; intros idx H; simpl; [exact H|].
  apply IH, bundleReducer_entries_mono, H.
Qed.

Lemma fold_entries_entry (e : OutputFile) (files : list OutputFile) (idx : NameIndex) :
  e ∈ files -> isChunk e = true -> isEntry e = true ->
  JsObject.has (stem e) (entries (fold_left bundleReducer files idx)) = true.
Proof.
  intros Hin Hchunk Hentry. revert idx.
  induction files as [|f files IH]; intros idx; [inversion Hin|].
  apply elem_of_cons in Hin as [<- | Hin]; simpl.
  - apply fold_entries_mono. unfold bundleReducer. rewrite Hchunk, Hentry. simpl.
    apply has_set_same.
  - now apply IH.
Qed.

End Index.

(** ** Preload links *)



(** ** A preload option that is no collection *)

Section PreloadTrue.

Variables (o : Options) (idx : NameIndex) (prefix : string).

Let step := injectFile o idx (PreloadBool true) prefix.

Lemma step_true_error (f : OutputFile) (d : Doc) (err : JsError) :
  step f d = inl err -> err = notAFunction.
Proof.
  unfold step, injectFile.
  destruct (JsObject.has _ (entries idx)); [discriminate|].
  destruct (JsObject.has _ (dynamicEntries idx)); [|discriminate].
  simpl. unfold notAFunction. congruence.
Qed.

Lemma step_true_throws (f : OutputFile) (d : Doc) :
  JsObject.has (stem f) (dynamicEntries idx) = true ->
  JsObject.has (stem f) (entries idx) = false ->
  step f d = inl notAFunction.
Proof.
  intros Hdyn Hent. unfold step, injectFile. fold (stem f).
  now rewrite Hent, Hdyn.
Qed.

Lemma forEachFile_true_throws (files : list OutputFile) (f : OutputFile) (d : Doc) :
  f ∈ files ->
  JsObject.has (stem f) (dynamicEntries idx) = true ->
  JsObject.has (stem f) (entries idx) = false ->
  forEachFile step files d = inl notAFunction.
Proof.
  intros Hin Hdyn Hent. revert d.
  induction files as [|g files IH]; intros d; [inversion Hin|]. simpl.
  destruct (step g d) as [err|d'] eqn:Hg.
  - now rewrite (step_true_error _ _ _ Hg).
  - apply elem_of_cons in Hin as [-> | Hin]; [|now apply IH].
    rewrite (step_true_throws g d Hdyn Hent) in Hg. discriminate.
Qed.

End PreloadTrue.

(** C10: the value true of the preload option comes out of the
    normalization as it went in, and the emission then throws a type error,
    no configuration error, as soon as the bundle has a file whose stem is
    in [dynamicEntries] and not in [entries], the file for which the
    membership test is evaluated. *)
Theorem preload_true_throws (o : Options) (files : list OutputFile)
    (f : OutputFile) (d : Doc) :
  preload o = PreloadBool true ->
  inject o <> InjectBool false ->
  f ∈ files ->
  JsObject.has (stem f) (dynamicEntries (classify files)) = true ->
  JsObject.has (stem f) (entries (classify files)) = false ->
  normalizePreload (PreloadBool true) = PreloadBool true
  /\ exists msg,
      injectGenerated o files d = inl (TypeError msg)
      /\ forall d0, injectAll o files d0 = inl (TypeError msg).
Proof.
  intros Hpre Hinject Hin Hdyn Hent. split; [reflexivity|].
  exists "preload.has is not a function".
  assert (Hgen : forall d1, injectGenerated o files d1 = inl notAFunction).
  { intros d1. unfold injectGenerated. rewrite Hpre. simpl.
    destruct (inject o) as [|[|]|]; try congruence;
      now apply forEachFile_true_throws with (f := f). }
  split; [apply Hgen|].
  intros d0. unfold injectAll. now rewrite Hgen.
Qed.

Lemma preload_true_throws_witness :
  let o := {| inject := InjectUndefined; title := None; favicon := None;
              meta := None; externals := None; preload := PreloadBool true;
              modules := None; nomodule := None; onlinePath := None |} in
  let f := chunk "lazy-7c.js" "lazy" false true in
  let files := [chunk "main.js" "main" true false; f] in
  (preload o = PreloadBool true /\ inject o <> InjectBool false /\ f ∈ files
   /\ JsObject.has (stem f) (dynamicEntries (classify files)) = true
   /\ JsObject.has (stem f) (entries (classify files)) = false)
  /\ exists msg, injectGenerated o files emptyDoc = inl (TypeError msg).
Proof.
  intros o f files.
  assert (Hi : inject o <> InjectBool false) by discriminate.
  assert (Hf : f ∈ files) by (apply list_elem_of_further, list_elem_of_here).
  assert (Hdyn : JsObject.has (stem f) (dynamicEntries (classify files)) = true)
    by (vm_compute; reflexivity).
  assert (Hent : JsObject.has (stem f) (entries (classify files)) = false)
    by (vm_compute; reflexivity).
  split; [repeat split; assumption || reflexivity|].
  destruct (preload_true_throws o files f emptyDoc eq_refl Hi Hf Hdyn Hent)
    as (_ & msg & Hrun & _).
  exists msg. exact Hrun.
Defined.

(** ** Queries *)

Section Queries.

Variable tag : string.

Lemma Node_children_ind (P : Node -> Prop) :
  (forall t a cs, Forall P cs -> P (HTMLElement t a cs)) ->
  (forall s, P (TextNode s)) ->
  forall n, P n.
Proof.
  intros Helement Htext. fix IH 1. intros [t a cs|s]; [|apply Htext].
  apply Helement. induction cs as [|c cs IHcs]; constructor; [apply IH | exact IHcs].
Qed.

Lemma querySelector_cons t a c r :
  Dom.querySelector tag (HTMLElement t a (c :: r))
  = if Dom.hasTag tag c then Some [0]
    else match Dom.querySelector tag c with
         | Some p => Some (0 :: p)
         | None => Dom.next (Dom.querySelector tag (HTMLElement t a r))
         end.
Proof. reflexivity. Qed.

Lemma querySelectorAll_cons t a c r :
  Dom.querySelectorAll tag (HTMLElement t a (c :: r))
  = ((if Dom.hasTag tag c then [([0], c)] else [])
     ++ map (fun '(p, n) => (0 :: p, n)) (Dom.querySelectorAll tag c)
     ++ Dom.shift (Dom.querySelectorAll tag (HTMLElement t a r)))%list.
Proof. reflexivity. Qed.

Lemma shift_bump (k : nat) (l : list (list nat * Node)) :
  Dom.shift (map (bump k) l) = map (bump (S k)) l.
Proof.
  unfold Dom.shift. rewrite map_map. apply map_ext.
  intros [[|i r] n]; reflexivity.
Qed.

Lemma bump_zero (l : list (list nat * Node)) :
  Forall (fun pn => fst pn <> []) l -> map (bump 0) l = l.
Proof.
  induction 1 as [|[[|i r] n] l Hne _ IH]; simpl; [reflexivity| |].
  - now contradiction Hne.
  - unfold bump at 1. simpl. now rewrite IH.
Qed.

(** The first element found is the first of all those found. *)
Lemma querySelector_first (n : Node) :
  Dom.querySelector tag n = fst <$> List.head (Dom.querySelectorAll tag n).
Proof.
  induction n as [t a cs IH|s] using Node_children_ind; [|reflexivity].
  induction IH as [|c r Hc _ IHr]; [reflexivity|].
  rewrite querySelector_cons, querySelectorAll_cons.
  destruct (Dom.hasTag tag c); [reflexivity|].
  rewrite Hc, IHr.
  destruct (Dom.querySelectorAll tag c) as [|[p x] l]; [|reflexivity].
  destruct (Dom.querySelectorAll tag (HTMLElement t a r)) as [|[[|i q] x] l];
    reflexivity.
Qed.

Lemma querySelector_None (n : Node) :
  Dom.querySelector tag n = None <-> Dom.querySelectorAll tag n = [].
Proof.
  rewrite querySelector_first.
  destruct (Dom.querySelectorAll tag n); simpl; split; congruence.
Qed.

(** Every element found stands at its path and has the tag. *)
Lemma querySelectorAll_sound (n : Node) :
  Forall (fun pn => fst pn <> [] /\ Dom.nodeAt (fst pn) n = Some (snd pn)
                    /\ Dom.hasTag tag (snd pn) = true)
         (Dom.querySelectorAll tag n).
Proof.
  induction n as [t a cs IH|s] using Node_children_ind; [|constructor].
  induction IH as [|c r Hc _ IHr]; [constructor|].
  rewrite querySelectorAll_cons. repeat apply Forall_app_2.
  - destruct (Dom.hasTag tag c) eqn:E; repeat constructor; [discriminate | exact E].
  - rewrite List.Forall_map. eapply Forall_impl; [exact Hc|].
    intros [p x] (_ & Hat & Htag). simpl in *. repeat split; [discriminate | exact Hat | exact Htag].
  - unfold Dom.shift. rewrite List.Forall_map. eapply Forall_impl; [exact IHr|].
    intros [[|i q] x] (Hne & Hat & Htag); simpl in *; [congruence|].
    repeat split; [discriminate | exact Hat | exact Htag].
Qed.

(** Elements found under a last child that is added to a node under which
    none is found. *)
Lemma querySelectorAll_snoc t a (cs : list Node) (x : Node) :
  Dom.querySelectorAll tag (HTMLElement t a cs) = [] ->
  Dom.querySelectorAll tag (HTMLElement t a (cs ++ [x]))
  = map (bump (length cs)) (Dom.querySelectorAll tag (HTMLElement t a [x])).
Proof.
  induction cs as [|c cs IH]; intros Hnone.
  - simpl app. symmetry. apply bump_zero.
    eapply Forall_impl; [apply querySelectorAll_sound|]. now intros pn (H & _).
  - rewrite querySelectorAll_cons in Hnone.
    apply app_eq_nil in Hnone as [H1 Hnone]. apply app_eq_nil in Hnone as [H2 H3].
    change ((c :: cs) ++ [x])%list with (c :: (cs ++ [x]))%list.
    rewrite (querySelectorAll_cons t a c (cs ++ [x])), H1, H2, !app_nil_l.
    rewrite IH, shift_bump; [reflexivity|].
    unfold Dom.shift in H3. now apply map_eq_nil in H3.
Qed.

End Queries.

(** ** The head and the body of the document *)

(** C7, amended: under an html element below which, at any depth, there is
    neither a head nor a body, [head] is created as the first child and
    [body] as the last one, and after that each is the only element of its
    tag; a query that finds an element, at any depth, makes [getChildElement]
    return the first element of the tag, in document order, and leave the
    tree as it is. *)
Theorem openDoc_head_and_body (t a : string) (cs : list Node)
    (n : Node) (tag : string) (append : bool) (p : list nat) :
  (Dom.querySelector "head" (HTMLElement t a cs) = None ->
   Dom.querySelector "body" (HTMLElement t a cs) = None ->
   openDoc (HTMLElement t a cs)
   = {| html := HTMLElement t a (newHead :: cs ++ [newBody]);
        head := [0]; body := [S (length cs)] |}
   /\ Dom.querySelectorAll "head" (html (openDoc (HTMLElement t a cs)))
      = [([0], newHead)]
   /\ Dom.querySelectorAll "body" (html (openDoc (HTMLElement t a cs)))
      = [([S (length cs)], newBody)])
  /\ (Dom.querySelector tag n = Some p ->
      Dom.getChildElement n tag append = (n, p)
      /\ exists x, Dom.nodeAt p n = Some x /\ Dom.hasTag tag x = true
                   /\ List.head (Dom.querySelectorAll tag n) = Some (p, x)).
Proof.
  split.
  - intros Hhead Hbody.
    assert (Hopen : openDoc (HTMLElement t a cs)
                    = {| html := HTMLElement t a (newHead :: cs ++ [newBody]);
                         head := [0]; body := [S (length cs)] |}).
    { assert (H1 : Dom.getChildElement (HTMLElement t a cs) "head" false
                   = (HTMLElement t a (newHead :: cs), [0])).
      { unfold Dom.getChildElement. now rewrite Hhead. }
      assert (H2 : Dom.getChildElement (HTMLElement t a (newHead :: cs)) "body" true
                   = (HTMLElement t a (newHead :: cs ++ [newBody]), [S (length cs)])).
      { unfold Dom.getChildElement.
        rewrite (querySelector_cons "body" t a newHead cs), Hbody. reflexivity. }
      unfold openDoc. now rewrite H1, H2. }
    rewrite Hopen. simpl html. split; [reflexivity|].
    apply querySelector_None in Hhead. apply querySelector_None in Hbody.
    rewrite !querySelectorAll_cons.
    rewrite (querySelectorAll_snoc "head" t a cs newBody Hhead).
    rewrite (querySelectorAll_snoc "body" t a cs newBody Hbody).
    split; [reflexivity|].
    simpl. unfold bump. simpl. now rewrite Nat.add_0_r.
  - intros Hfound. split.
    + unfold Dom.getChildElement. now rewrite Hfound.
    + rewrite querySelector_first in Hfound.
      pose proof (querySelectorAll_sound tag n) as Hsound.
      destruct (Dom.querySelectorAll tag n) as [|[q x] l]; [discriminate|].
      simpl in Hfound. injection Hfound as ->.
      apply Forall_cons in Hsound as [(_ & Hat & Htag) _].
      exists x. repeat split; assumption.
Qed.

Lemma openDoc_head_and_body_witness :
  let page := HTMLElement "html" "" [TextNode "hello"] in
  (Dom.querySelector "head" page = None /\ Dom.querySelector "body" page = None)
  /\ openDoc page
     = {| html := HTMLElement "html" "" [newHead; TextNode "hello"; newBody];
          head := [0]; body := [2] |}
  /\ Dom.querySelector "body" emptyTemplate = Some [1]
  /\ Dom.getChildElement emptyTemplate "body" true = (emptyTemplate, [1]).
Proof.
  intros page. split; [split; reflexivity|].
  destruct (openDoc_head_and_body "html" "" [TextNode "hello"] emptyTemplate
              "body" true [1]) as [Hnew Hold].
  destruct (Hnew eq_refl eq_refl) as [Hopen _].
  destruct (Hold eq_refl) as [Hget _].
  split; [exact Hopen|]. split; [reflexivity | exact Hget].
Defined.

(** ** Merging by key *)

Section Find.

Context {A B : Type}.

Lemma find_app (p : A -> bool) (l1 l2 : list A) :
  List.find p (l1 ++ l2)
  = match List.find p l1 with Some x => Some x | None => List.find p l2 end.
Proof.
  induction l1 as [|x l1 IH]; simpl; [reflexivity|]. now destruct (p x).
Qed.

Lemma find_map (f : A -> B) (p : B -> bool) (l : list A) :
  List.find p (map f l) = f <$> List.find (fun x => p (f x)) l.
Proof.
  induction l as [|x l IH]; simpl; [reflexivity|]. now destruct (p (f x)).
Qed.

Lemma find_ext (p q : A -> bool) (l : list A) :
  (forall x, p x = q x) -> List.find p l = List.find q l.
Proof.
  intros H. induction l as [|x l IH]; simpl; [reflexivity|]. now rewrite H, IH.
Qed.

Lemma find_existsb (p : A -> bool) (l : list A) :
  existsb p l = match List.find p l with Some _ => true | None => false end.
Proof.
  induction l as [|x l IH]; simpl; [reflexivity|]. now destruct (p x).
Qed.

End Find.

Section FirstMatch.

Variable attributes : string -> string -> option string.
Variables (tag key value : string).

Let found (n : Node) := findByAttr attributes key value (Dom.querySelectorAll tag n).
Let self := selfIs attributes tag key value.
Let under := belowIs attributes tag key value.
Let first := firstMatch attributes tag key value.

(** What the query and [find] return, read off the children. *)
Lemma find_firstMatch t a (cs : list Node) :
  match first cs with
  | Some (i, true) =>
      exists c, cs !! i = Some c /\ self c = true
                /\ found (HTMLElement t a cs) = Some ([i], c)
  | Some (i, false) =>
      exists q n, q <> [] /\ found (HTMLElement t a cs) = Some (i :: q, n)
  | None => found (HTMLElement t a cs) = None
  end.
Proof.
  induction cs as [|c r IH]; [reflexivity|].
  unfold found, findByAttr in *. rewrite querySelectorAll_cons, !find_app.
  set (below := Dom.querySelectorAll tag (HTMLElement t a r)) in *.
  unfold first in *. simpl firstMatch. fold self. fold under.
  destruct (self c) eqn:Hself.
  { exists c. split; [reflexivity|]. split; [exact Hself|].
    unfold self, selfIs in Hself. apply andb_true_iff in Hself as [Htag Hattr].
    rewrite Htag. simpl. now rewrite Hattr. }
  assert (Hhead : List.find (fun pn => attrIs attributes key value (snd pn))
                    (if Dom.hasTag tag c then [([0], c)] else []) = None).
  { unfold self, selfIs in Hself. destruct (Dom.hasTag tag c); [|reflexivity].
    simpl in *. now rewrite Hself. }
  rewrite Hhead, find_map.
  rewrite (find_ext _ (fun pn => attrIs attributes key value (snd pn)))
    by (now intros [p0 n0]).
  unfold under, belowIs. rewrite find_existsb.
  pose proof (querySelectorAll_sound tag c) as Hsound.
  destruct (List.find _ (Dom.querySelectorAll tag c)) as [[q n]|] eqn:Hc.
  - simpl. exists q, n. split; [|reflexivity].
    apply find_some in Hc as [Hin _].
    rewrite List.Forall_forall in Hsound. now apply (Hsound _ Hin).
  - simpl. unfold Dom.shift. rewrite find_map.
    rewrite (find_ext _ (fun pn => attrIs attributes key value (snd pn)))
      by (now intros [p0 n0]).
    destruct (firstMatch attributes tag key value r) as [[i [|]]|]; simpl.
    + destruct IH as (x & Hx & Hsx & ->). exists x. repeat split; assumption.
    + destruct IH as (q & n & Hq & ->). exists q, n. split; [assumption|reflexivity].
    + now rewrite IH.
Qed.

End FirstMatch.

Section FirstMatchLists.

Variable attributes : string -> string -> option string.
Variables (tag key value : string).

Let self := selfIs attributes tag key value.
Let under := belowIs attributes tag key value.
Let first := firstMatch attributes tag key value.

Lemma firstMatch_app (l1 l2 : list Node) :
  first (l1 ++ l2)
  = match first l1 with
    | Some r => Some r
    | None => (fun ib => (length l1 + fst ib, snd ib)) <$> first l2
    end.
Proof.
  unfold first. induction l1 as [|c l1 IH]; simpl.
  - now destruct (firstMatch attributes tag key value l2) as [[i b]|].
  - destruct (selfIs attributes tag key value c); [reflexivity|].
    destruct (belowIs attributes tag key value c); [reflexivity|].
    rewrite IH.
    destruct (firstMatch attributes tag key value l1) as [[i b]|]; [reflexivity|].
    now destruct (firstMatch attributes tag key value l2) as [[i b]|].
Qed.

Lemma firstMatch_lookup (cs : list Node) (i : nat) (b : bool) :
  first cs = Some (i, b) ->
  exists c, cs !! i = Some c /\ self c = b
            /\ (b = false -> under c = true).
Proof.
  unfold first, self, under. revert i.
  induction cs as [|c cs IH]; intros i H; simpl in H; [discriminate|].
  destruct (selfIs attributes tag key value c) eqn:Hs.
  { injection H as <- <-. exists c.
    split; [reflexivity|]. split; [assumption | discriminate]. }
  destruct (belowIs attributes tag key value c) eqn:Hu.
  { injection H as <- <-. exists c.
    split; [reflexivity|]. split; [assumption | intros _; assumption]. }
  destruct (firstMatch attributes tag key value cs) as [[j b']|]; [|discriminate].
  simpl in H. injection H as <- <-. apply (IH j eq_refl).
Qed.

(** A child replaced by one that answers alike leaves the first match where
    it was. *)
Lemma firstMatch_insert_alike (cs : list Node) (i : nat) (old new : Node) :
  cs !! i = Some old -> self new = self old -> under new = under old ->
  first (<[i := new]> cs) = first cs.
Proof.
  unfold first, self, under. intros Hat Hs Hu. revert i Hat.
  induction cs as [|c cs IH]; intros [|i] Hat; simpl in *; try discriminate.
  - injection Hat as ->. now rewrite Hs, Hu.
  - now rewrite (IH i Hat).
Qed.

(** A first match replaced by an element that has the value itself. *)
Lemma firstMatch_insert_self (cs : list Node) (i : nat) (b : bool) (new : Node) :
  first cs = Some (i, b) -> self new = true ->
  first (<[i := new]> cs) = Some (i, true).
Proof.
  unfold first, self. intros H Hs. revert i H.
  induction cs as [|c cs IH]; intros i H; simpl in H; [discriminate|].
  destruct (selfIs attributes tag key value c) eqn:Hc.
  { injection H as <- <-. simpl. now rewrite Hs. }
  destruct (belowIs attributes tag key value c) eqn:Hu.
  { injection H as <- <-. simpl. now rewrite Hs. }
  destruct (firstMatch attributes tag key value cs) as [[j b']|] eqn:Hr; [|discriminate].
  simpl in H. injection H as <- <-. simpl. rewrite Hc, Hu.
  now rewrite (IH j eq_refl).
Qed.

(** A line break and an element that has the value itself, appended where
    there was no match. *)
Lemma firstMatch_appended (cs : list Node) (new : Node) :
  first cs = None -> self new = true ->
  first (cs ++ [TextNode nl; new]) = Some (S (length cs), true).
Proof.
  intros Hnone Hs. rewrite firstMatch_app, Hnone.
  unfold first. simpl. fold self. rewrite Hs. simpl.
  now rewrite Nat.add_1_r.
Qed.

End FirstMatchLists.

(** ** The favicon link and the title *)

Section Single.

Variable attributes : string -> string -> option string.
Variable contentNodes : string -> list Node.

Lemma appendChild_line_and (x : Node) t a (cs : list Node) :
  Dom.appendChild x (Dom.appendChild (TextNode nl) (HTMLElement t a cs))
  = HTMLElement t a (cs ++ [TextNode nl; x]).
Proof. unfold Dom.appendChild. simpl. now rewrite <- app_assoc. Qed.

Lemma exchangeChild_child (i : nat) (new : Node) t a (cs : list Node) :
  Dom.exchangeChild [i] new (HTMLElement t a cs) = HTMLElement t a (<[i := new]> cs).
Proof. reflexivity. Qed.

Lemma exchangeChild_nested (i : nat) (q : list nat) (new parent : Node) :
  q <> [] -> Dom.exchangeChild (i :: q) new parent = parent.
Proof. now destruct q. Qed.

Lemma selfIs_read (tag key value : string) (n : Node) :
  Dom.hasTag tag n = true ->
  attributes (rawAttrsOf n) key = Some value ->
  selfIs attributes tag key value n = true.
Proof.
  intros Htag Hread. unfold selfIs. rewrite Htag. simpl.
  destruct n; simpl in *; [|discriminate]. now apply bool_decide_eq_true.
Qed.


End Single.

Section Title.

Variable attributes : string -> string -> option string.
Variable contentNodes : string -> list Node.
Variable tag : string.

Lemma hasTag_setChildNodes (cs : list Node) (n : Node) :
  Dom.hasTag tag (Dom.setChildNodes cs n) = Dom.hasTag tag n.
Proof. now destruct n. Qed.

Lemma hasTag_alterAt (f : Node -> Node) (p : list nat) (n : Node) :
  (forall x, Dom.hasTag tag (f x) = Dom.hasTag tag x) ->
  Dom.hasTag tag (Dom.alterAt f p n) = Dom.hasTag tag n.
Proof.
  intros Hf. destruct p as [|i q]; simpl; [apply Hf | apply hasTag_setChildNodes].
Qed.

Lemma querySelector_nonempty (n : Node) (p : list nat) :
  Dom.querySelector tag n = Some p -> p <> [].
Proof.
  rewrite querySelector_first. intros H.
  pose proof (querySelectorAll_sound tag n) as Hsound.
  destruct (Dom.querySelectorAll tag n) as [|[q x] l]; [discriminate|].
  simpl in H. injection H as <-.
  apply Forall_cons in Hsound as [(Hne & _) _]. exact Hne.
Qed.

Lemma alterAt_child (f : Node -> Node) (i : nat) (q : list nat) t a (cs : list Node) :
  Dom.alterAt f (i :: q) (HTMLElement t a cs)
  = HTMLElement t a (alter (Dom.alterAt f q) i cs).
Proof. reflexivity. Qed.

(** A change of the element a query finds, one that keeps tag names, leaves
    the element where the query finds it. *)
Lemma querySelector_alterAt (f : Node -> Node) (n : Node) :
  (forall x, Dom.hasTag tag (f x) = Dom.hasTag tag x) ->
  forall p, Dom.querySelector tag n = Some p ->
            Dom.querySelector tag (Dom.alterAt f p n) = Some p.
Proof.
  intros Hf.
  induction n as [t a cs IH|s] using Node_children_ind; [|discriminate].
  induction IH as [|c r Hc _ IHr]; intros p Hp; [discriminate|].
  rewrite querySelector_cons in Hp.
  destruct (Dom.hasTag tag c) eqn:Htag.
  { injection Hp as <-. rewrite alterAt_child. simpl alter.
    rewrite querySelector_cons. simpl Dom.alterAt. now rewrite Hf, Htag. }
  destruct (Dom.querySelector tag c) as [q|] eqn:Hq.
  { injection Hp as <-. rewrite alterAt_child. simpl alter.
    rewrite querySelector_cons, (hasTag_alterAt f q c Hf), Htag.
    now rewrite (Hc q eq_refl). }
  destruct (Dom.querySelector tag (HTMLElement t a r)) as [p'|] eqn:Hr; [|discriminate].
  pose proof (querySelector_nonempty _ _ Hr) as Hne.
  destruct p' as [|i q]; [contradiction|].
  simpl in Hp. injection Hp as <-.
  specialize (IHr (i :: q) eq_refl). rewrite alterAt_child in IHr.
  rewrite alterAt_child.
  change (alter (Dom.alterAt f q) (S i) (c :: r))
    with (c :: alter (Dom.alterAt f q) i r).
  rewrite querySelector_cons, Htag, Hq, IHr. reflexivity.
Qed.

Lemma querySelector_appended t a (cs : list Node) (x : Node) :
  Dom.querySelector tag (HTMLElement t a cs) = None ->
  Dom.hasTag tag x = true ->
  Dom.querySelector tag (HTMLElement t a (cs ++ [TextNode nl; x]))
  = Some [S (length cs)].
Proof.
  intros Hnone Hx. induction cs as [|c cs IH].
  - simpl app. rewrite !querySelector_cons, Hx. reflexivity.
  - rewrite querySelector_cons in Hnone.
    destruct (Dom.hasTag tag c) eqn:Htag; [discriminate|].
    destruct (Dom.querySelector tag c) eqn:Hc; [discriminate|].
    destruct (Dom.querySelector tag (HTMLElement t a cs)) eqn:Hcs; [discriminate|].
    change ((c :: cs) ++ [TextNode nl; x])%list
      with (c :: (cs ++ [TextNode nl; x]))%list.
    rewrite querySelector_cons, Htag, Hc, (IH eq_refl). reflexivity.
Qed.



End Title.

Section TitleTwice.

Variable contentNodes : string -> list Node.



End TitleTwice.

(** ** The meta loop *)

Section MetaFacts.

Variable attributes : string -> string -> option string.

Let self := selfIs attributes "meta" "name".
Let under := belowIs attributes "meta" "name".

Lemma selfIs_one_value (v w : string) (x : Node) :
  self v x = true -> self w x = true -> v = w.
Proof.
  unfold self, selfIs. intros Hv Hw.
  apply andb_true_iff in Hv as [_ Hv]. apply andb_true_iff in Hw as [_ Hw].
  destruct x as [t a l|s]; simpl in *; [|discriminate].
  apply bool_decide_eq_true in Hv, Hw. congruence.
Qed.

Lemma self_of_read (v k : string) (x : Node) :
  Dom.hasTag "meta" x = true ->
  attributes (rawAttrsOf x) "name" = Some k ->
  self v x = bool_decide (k = v).
Proof.
  intros Htag Hread. unfold self, selfIs. rewrite Htag. simpl.
  destruct x as [t a l|s]; simpl in *; [|discriminate].
  rewrite Hread. apply bool_decide_ext. split; congruence.
Qed.

Lemma self_read (k : string) (x : Node) :
  self k x = true -> attributes (rawAttrsOf x) "name" = Some k.
Proof.
  unfold self, selfIs. intros H. apply andb_true_iff in H as [_ H].
  destruct x as [t a l|s]; simpl in *; [|discriminate].
  now apply bool_decide_eq_true in H.
Qed.

Lemma under_childless (v : string) (x : Node) :
  Dom.childNodes x = [] -> under v x = false.
Proof.
  intros H. unfold under, belowIs.
  destruct x as [t a l|s]; simpl in *; [|reflexivity]. now subst l.
Qed.

(** The new meta element answers as the childless element of its name that
    it replaces. *)
Lemma newMeta_alike (k c v : string) (old : Node) :
  attributes (rawAttrsOf (newMeta k c)) "name" = Some k ->
  self k old = true -> Dom.childNodes old = [] ->
  self v (newMeta k c) = self v old /\ under v (newMeta k c) = under v old.
Proof.
  intros Hread Hold Hvoid. split.
  - rewrite (self_of_read v k (newMeta k c) eq_refl Hread).
    assert (Htag : Dom.hasTag "meta" old = true).
    { unfold self, selfIs in Hold. now apply andb_true_iff in Hold as [H _]. }
    now rewrite (self_of_read v k old Htag (self_read k old Hold)).
  - now rewrite !under_childless.
Qed.


End MetaFacts.

Section MetaRun.

Variable attributes : string -> string -> option string.
Variables (t a : string) (cs : list Node).
Hypothesis Hvoid : voidMetas cs.

Let nodes := Dom.querySelectorAll "meta" (HTMLElement t a cs).
Let self := selfIs attributes "meta" "name".

Lemma done_more (v k c : string) (done : list (string * string)) :
  v ∈ done.*1 -> v ∈ ((done ++ [(k, c)])%list).*1.
Proof. rewrite fmap_app, elem_of_app. now left. Qed.

Lemma done_last (k c : string) (done : list (string * string)) :
  k ∈ ((done ++ [(k, c)])%list).*1.
Proof. rewrite fmap_app, elem_of_app. right. apply list_elem_of_here. Qed.

Lemma done_before (v k c : string) (done : list (string * string)) :
  v ∉ ((done ++ [(k, c)])%list).*1 -> (v ∉ done.*1) /\ v <> k.
Proof.
  rewrite fmap_app, not_elem_of_app. intros [H1 H2]. split; [exact H1|].
  intros ->. apply H2, list_elem_of_here.
Qed.

Lemma in_done_cases (k c k' c' : string) (done : list (string * string)) :
  (k', c') ∈ (done ++ [(k, c)])%list -> (k', c') ∈ done \/ (k' = k /\ c' = c).
Proof.
  rewrite elem_of_app, list_elem_of_singleton. intros [H|H]; [now left|].
  right. now injection H.
Qed.

Lemma in_done_fst (k c : string) (done : list (string * string)) :
  (k, c) ∈ done -> k ∈ done.*1.
Proof. intros H. apply list_elem_of_fmap. now exists (k, c). Qed.

(** An entry whose name is met first on a child of [head]. *)
Lemma metaEntry_child (done : list (string * string)) (cur : list Node)
    (gone : list (list nat)) (k c : string) (i : nat) :
  metaInv attributes cs done cur gone -> k ∉ done.*1 ->
  attributes (rawAttrsOf (newMeta k c)) "name" = Some k ->
  firstMeta attributes k cs = Some (i, true) ->
  exists cur' gone',
    metaEntry attributes nodes (HTMLElement t a cur, gone) (k, c)
    = (HTMLElement t a cur', gone')
    /\ metaInv attributes cs (done ++ [(k, c)])%list cur' gone'.
Proof.
  intros Hinv Hnew Hread Hfirst.
  pose proof (find_firstMatch attributes "meta" "name" k t a cs) as Hfind.
  unfold firstMeta in Hfirst. rewrite Hfirst in Hfind.
  destruct Hfind as (old & Hold & Hself & Hfound). fold self in Hself.
  assert (Hone : forall v, v ∈ done.*1 ->
                           firstMeta attributes v cs = Some (i, true) -> False).
  { intros v Hv Hvi.
    destruct (firstMatch_lookup attributes "meta" "name" v cs i true Hvi)
      as (x & Hx & Hsx & _).
    rewrite Hold in Hx. injection Hx as <-.
    apply Hnew. now rewrite (selfIs_one_value attributes k v old Hself Hsx). }
  assert (Hcur : cur !! i = Some old).
  { destruct (inv_orig _ _ _ _ _ Hinv i old Hold) as [H | (v & Hv & Hvi)];
      [exact H | destruct (Hone v Hv Hvi)]. }
  assert (Hfresh : [i] ∉ gone).
  { intros Hin. destruct (inv_gone _ _ _ _ _ Hinv i Hin) as (v & Hv & Hvi).
    exact (Hone v Hv Hvi). }
  assert (Hchildless : Dom.childNodes old = []).
  { unfold voidMetas in Hvoid. rewrite Forall_lookup in Hvoid.
    apply (Hvoid i old Hold).
    unfold self, selfIs in Hself. now apply andb_true_iff in Hself as [H _]. }
  assert (Hsame : forall v, firstMeta attributes v (<[i := newMeta k c]> cur)
                            = firstMeta attributes v cur).
  { intros v.
    destruct (newMeta_alike attributes k c v old Hread Hself Hchildless) as [Hs Hu].
    unfold firstMeta.
    apply (firstMatch_insert_alike attributes "meta" "name" v cur i old
             (newMeta k c) Hcur Hs Hu). }
  exists (<[i := newMeta k c]> cur), ([i] :: gone). split.
  - unfold metaEntry, nodes, findByAttr in *. rewrite Hfound.
    now rewrite bool_decide_eq_false_2, exchangeChild_child by assumption.
  - split.
    + intros v r Hv. rewrite Hsame. now apply (inv_kept _ _ _ _ _ Hinv).
    + intros v Hv Hnot. apply done_before in Hnot as [Hnot _].
      rewrite Hsame. now apply (inv_none _ _ _ _ _ Hinv).
    + intros k' c' j Hin Hj. rewrite Hsame in Hj.
      apply in_done_cases in Hin as [Hin | [-> ->]].
      * destruct (decide (j = i)) as [->|Hne].
        -- exfalso.
           destruct (firstMatch_lookup attributes "meta" "name" k' cur i true Hj)
             as (x & Hx & Hsx & _).
           rewrite Hcur in Hx. injection Hx as <-.
           apply Hnew. rewrite (selfIs_one_value attributes k k' old Hself Hsx).
           now apply in_done_fst with (c := c').
        -- rewrite list_lookup_insert_ne by congruence.
           now apply (inv_done _ _ _ _ _ Hinv k' c' j).
      * rewrite (inv_kept _ _ _ _ _ Hinv k _ Hfirst) in Hj. injection Hj as <-.
        apply list_lookup_insert_eq. now apply lookup_lt_Some with (x := old).
    + intros k' c' Hin. rewrite Hsame.
      apply in_done_cases in Hin as [Hin | [-> ->]].
      * now apply (inv_some _ _ _ _ _ Hinv k' c').
      * now rewrite (inv_kept _ _ _ _ _ Hinv k _ Hfirst).
    + intros j Hj. apply elem_of_cons in Hj as [Hj | Hj].
      * injection Hj as ->. exists k. split; [apply done_last | exact Hfirst].
      * destruct (inv_gone _ _ _ _ _ Hinv j Hj) as (v & Hv & Hvj).
        exists v. split; [now apply done_more | exact Hvj].
    + intros j x Hx. destruct (decide (j = i)) as [->|Hne].
      * right. exists k. split; [apply done_last | exact Hfirst].
      * rewrite list_lookup_insert_ne by congruence.
        destruct (inv_orig _ _ _ _ _ Hinv j x Hx) as [H | (v & Hv & Hvj)];
          [now left | right].
        exists v. split; [now apply done_more | exact Hvj].
Qed.

End MetaRun.

Section MetaRunOn.

Variable attributes : string -> string -> option string.
Variables (t a : string) (cs : list Node).
Hypothesis Hvoid : voidMetas cs.

Let nodes := Dom.querySelectorAll "meta" (HTMLElement t a cs).

(** An entry whose name is met first below a child of [head]. *)
Lemma metaEntry_nested (done : list (string * string)) (cur : list Node)
    (gone : list (list nat)) (k c : string) (i : nat) :
  metaInv attributes cs done cur gone -> k ∉ done.*1 ->
  firstMeta attributes k cs = Some (i, false) ->
  exists gone',
    metaEntry attributes nodes (HTMLElement t a cur, gone) (k, c)
    = (HTMLElement t a cur, gone')
    /\ metaInv attributes cs (done ++ [(k, c)])%list cur gone'.
Proof.
  intros Hinv Hnew Hfirst.
  pose proof (find_firstMatch attributes "meta" "name" k t a cs) as Hfind.
  unfold firstMeta in Hfirst. rewrite Hfirst in Hfind.
  destruct Hfind as (q & n & Hq & Hfound).
  exists ((i :: q) :: gone). split.
  - unfold metaEntry, nodes, findByAttr in *. rewrite Hfound.
    f_equal. case_bool_decide; [reflexivity | now apply exchangeChild_nested].
  - split.
    + apply (inv_kept _ _ _ _ _ Hinv).
    + intros v Hv Hnot. apply done_before in Hnot as [Hnot _].
      now apply (inv_none _ _ _ _ _ Hinv).
    + intros k' c' j Hin Hj. apply in_done_cases in Hin as [Hin | [-> ->]].
      * now apply (inv_done _ _ _ _ _ Hinv k' c' j).
      * rewrite (inv_kept _ _ _ _ _ Hinv k _ Hfirst) in Hj. discriminate.
    + intros k' c' Hin. apply in_done_cases in Hin as [Hin | [-> ->]].
      * now apply (inv_some _ _ _ _ _ Hinv k' c').
      * now rewrite (inv_kept _ _ _ _ _ Hinv k _ Hfirst).
    + intros j Hj. apply elem_of_cons in Hj as [Hj | Hj].
      * injection Hj as _ <-. contradiction.
      * destruct (inv_gone _ _ _ _ _ Hinv j Hj) as (v & Hv & Hvj).
        exists v. split; [now apply done_more | exact Hvj].
    + intros j x Hx.
      destruct (inv_orig _ _ _ _ _ Hinv j x Hx) as [H | (v & Hv & Hvj)];
        [now left | right].
      exists v. split; [now apply done_more | exact Hvj].
Qed.

(** An entry whose name is met nowhere in [head]. *)
Lemma metaEntry_absent (done : list (string * string)) (cur : list Node)
    (gone : list (list nat)) (k c : string) :
  metaInv attributes cs done cur gone -> k ∉ done.*1 ->
  attributes (rawAttrsOf (newMeta k c)) "name" = Some k ->
  firstMeta attributes k cs = None ->
  metaEntry attributes nodes (HTMLElement t a cur, gone) (k, c)
  = (HTMLElement t a (cur ++ [TextNode nl; newMeta k c]), gone)
  /\ metaInv attributes cs (done ++ [(k, c)])%list
       (cur ++ [TextNode nl; newMeta k c]) gone.
Proof.
  intros Hinv Hnew Hread Hfirst.
  pose proof (find_firstMatch attributes "meta" "name" k t a cs) as Hfind.
  unfold firstMeta in Hfirst. rewrite Hfirst in Hfind.
  assert (Hself : selfIs attributes "meta" "name" k (newMeta k c) = true)
    by (apply selfIs_read; [reflexivity | exact Hread]).
  assert (Hadd : forall v,
             firstMeta attributes v (cur ++ [TextNode nl; newMeta k c])
             = match firstMeta attributes v cur with
               | Some r => Some r
               | None => if bool_decide (k = v) then Some (S (length cur), true)
                         else None
               end).
  { intros v. unfold firstMeta. rewrite firstMatch_app.
    destruct (firstMatch attributes "meta" "name" v cur) as [r|]; [reflexivity|].
    simpl. rewrite (self_of_read attributes v k (newMeta k c) eq_refl Hread).
    case_bool_decide; simpl; [now rewrite Nat.add_1_r | reflexivity]. }
  split.
  - unfold metaEntry, nodes, findByAttr in *. rewrite Hfind.
    now rewrite appendChild_line_and.
  - split.
    + intros v r Hv. now rewrite Hadd, (inv_kept _ _ _ _ _ Hinv v r Hv).
    + intros v Hv Hnot. apply done_before in Hnot as [Hnot Hne].
      rewrite Hadd, (inv_none _ _ _ _ _ Hinv v Hv Hnot).
      now rewrite bool_decide_eq_false_2 by congruence.
    + intros k' c' j Hin Hj. rewrite Hadd in Hj.
      apply in_done_cases in Hin as [Hin | [-> ->]].
      * pose proof (inv_some _ _ _ _ _ Hinv k' c' Hin) as Hsome.
        destruct (firstMeta attributes k' cur) as [r|] eqn:Hr; [|contradiction].
        injection Hj as ->. apply lookup_app_l_Some.
        now apply (inv_done _ _ _ _ _ Hinv k' c' j).
      * rewrite (inv_none _ _ _ _ _ Hinv k Hfirst Hnew) in Hj.
        rewrite bool_decide_eq_true_2 in Hj by reflexivity. injection Hj as <-.
        rewrite lookup_app_r by lia.
        now replace (S (length cur) - length cur) with 1 by lia.
    + intros k' c' Hin. rewrite Hadd.
      apply in_done_cases in Hin as [Hin | [-> ->]].
      * pose proof (inv_some _ _ _ _ _ Hinv k' c' Hin) as Hsome.
        now destruct (firstMeta attributes k' cur).
      * rewrite (inv_none _ _ _ _ _ Hinv k Hfirst Hnew).
        now rewrite bool_decide_eq_true_2.
    + intros j Hj. destruct (inv_gone _ _ _ _ _ Hinv j Hj) as (v & Hv & Hvj).
      exists v. split; [now apply done_more | exact Hvj].
    + intros j x Hx.
      destruct (inv_orig _ _ _ _ _ Hinv j x Hx) as [H | (v & Hv & Hvj)].
      * left. now apply lookup_app_l_Some.
      * right. exists v. split; [now apply done_more | exact Hvj].
Qed.

End MetaRunOn.

Section MetaTwice.

Variable attributes : string -> string -> option string.
Variables (t a : string) (cs : list Node).
Hypothesis Hvoid : voidMetas cs.

Let nodes := Dom.querySelectorAll "meta" (HTMLElement t a cs).

Lemma metaInv_start : metaInv attributes cs [] cs [].
Proof.
  split; try (intros; assumption).
  - intros k c i Hin. now apply elem_of_nil in Hin.
  - intros k c Hin. now apply elem_of_nil in Hin.
  - intros i Hin. now apply elem_of_nil in Hin.
  - intros i old H. now left.
Qed.

Lemma metaLoop_inv (entries : list (string * string)) :
  forall done cur gone,
    metaInv attributes cs done cur gone ->
    NoDup entries.*1 ->
    (forall k, k ∈ entries.*1 -> k ∉ done.*1) ->
    readsNames attributes entries ->
    exists cur' gone',
      fold_left (metaEntry attributes nodes) entries (HTMLElement t a cur, gone)
      = (HTMLElement t a cur', gone')
      /\ metaInv attributes cs (done ++ entries)%list cur' gone'.
Proof.
  induction entries as [|[k c] entries IH]; intros done cur gone Hinv Hnodup Hnew Hread.
  { exists cur, gone. now rewrite app_nil_r. }
  rewrite fmap_cons in Hnodup, Hnew. simpl in Hnodup, Hnew.
  apply NoDup_cons in Hnodup as [Hk Hnodup].
  apply Forall_cons in Hread as [Hreadk Hread]. simpl in Hreadk.
  assert (Hknew : k ∉ done.*1) by (apply Hnew, list_elem_of_here).
  assert (Hstep : exists cur1 gone1,
             metaEntry attributes nodes (HTMLElement t a cur, gone) (k, c)
             = (HTMLElement t a cur1, gone1)
             /\ metaInv attributes cs (done ++ [(k, c)])%list cur1 gone1).
  { destruct (firstMeta attributes k cs) as [[i [|]]|] eqn:Hfirst.
    - now apply (metaEntry_child attributes t a cs Hvoid done cur gone k c i).
    - destruct (metaEntry_nested attributes t a cs done cur gone k c i Hinv Hknew Hfirst)
        as (gone1 & H1 & H2).
      now exists cur, gone1.
    - destruct (metaEntry_absent attributes t a cs done cur gone k c Hinv Hknew
                  Hreadk Hfirst) as (H1 & H2).
      now exists (cur ++ [TextNode nl; newMeta k c])%list, gone. }
  destruct Hstep as (cur1 & gone1 & Hrun & Hinv1).
  destruct (IH (done ++ [(k, c)])%list cur1 gone1 Hinv1 Hnodup) as (cur' & gone' & Hfold & Hinv').
  - intros v Hv. rewrite fmap_app, not_elem_of_app. split.
    + apply Hnew. now apply list_elem_of_further.
    + simpl. rewrite list_elem_of_singleton. intros ->. contradiction.
  - exact Hread.
  - exists cur', gone'. cbn [fold_left]. rewrite Hrun. split; [exact Hfold|].
    now rewrite <- app_assoc in Hinv'.
Qed.


End MetaTwice.

(** ** The decorators applied twice *)





(** ** The hook on a small page *)

(** An entry script without options: the script tag is the last child of
    body and head stays empty. *)
Example generateBundle_entry_script :
  generateBundle SimpleAttributes.attributes textContent noOptions []
    (HTMLElement "" "" [emptyTemplate]) [chunk "main.a1.js" "main" true false]
  = inr {| html := HTMLElement "html" ""
                     [HTMLElement "head" "" [];
                      HTMLElement "body" ""
                        [TextNode nl;
                         HTMLElement "script" ("src=" ++ quoted "main.a1.js") []]];
           head := [0]; body := [1] |}.
Proof. vm_compute. reflexivity. Qed.

(** A template without an html element is refused. *)
Example generateBundle_no_html :
  generateBundle SimpleAttributes.attributes textContent noOptions []
    (HTMLElement "" "" [TextNode "hello"]) []
  = inl (PluginError "The input template doesn't contain the `html` tag").
Proof. reflexivity. Qed.

(** * Further properties of the hooks *)

(** ** The preload option and the path prefix, normalized again *)

(** X1: the hook stores the normalized preload back in the variable it read it
    from, so a later emission normalizes it again: that changes nothing. *)
Theorem normalizePreload_twice (preload : JsPreload) :
  normalizePreload (normalizePreload preload) = normalizePreload preload.
Proof. destruct preload as [|[|]|l|s|]; reflexivity. Qed.

(** X2: a name is in the set made of an array exactly when it is an element of
    the array; an absent preload and the value false have no member. *)
Theorem normalizePreload_members (l : list string) (x : string) :
  preloadHas (normalizePreload (PreloadArray l)) (Some x) = inr (bool_decide (x ∈ l))
  /\ preloadHas (normalizePreload PreloadUndefined) (Some x) = inr false
  /\ preloadHas (normalizePreload (PreloadBool false)) (Some x) = inr false.
Proof.
  split; [|split; reflexivity]. simpl. f_equal.
  apply bool_decide_ext. apply elem_of_list_to_set.
Qed.

Lemma endsWithSlash_added (s : string) : JsString.endsWithSlash (s ++ "/") = true.
Proof.
  unfold JsString.endsWithSlash. now rewrite chars_append, rev_app_distr.
Qed.

(** X3: a prefix already normalized is left as it is. *)
Theorem normalizePrefix_twice (onlinePath : option string) :
  normalizePrefix (Some (normalizePrefix onlinePath)) = normalizePrefix onlinePath.
Proof.
  unfold normalizePrefix at 1. simpl default.
  destruct (JsString.truthy (normalizePrefix onlinePath)) eqn:Ht; [|reflexivity].
  assert (Hends : JsString.endsWithSlash (normalizePrefix onlinePath) = true).
  { unfold normalizePrefix in *.
    destruct (JsString.truthy (default "" onlinePath)) eqn:Hs; simpl in *.
    - destruct (JsString.endsWithSlash (default "" onlinePath)) eqn:He; simpl in *.
      + exact He.
      + apply endsWithSlash_added.
    - rewrite Hs in Ht. discriminate. }
  now rewrite Hends.
Qed.

(** ** What the emission can raise *)

Section Emission.

Variables (o : Options) (idx : NameIndex) (prefix : string).

Lemma normalizePreload_shape (preload : JsPreload) :
  preload = PreloadBool true \/ preload = PreloadOther
  \/ exists s, normalizePreload preload = PreloadSet s.
Proof. destruct preload as [|[|]|l|s|]; simpl; eauto. Qed.

Lemma injectFile_error (preload : JsPreload) (f : OutputFile) (d : Doc) (e : JsError) :
  injectFile o idx preload prefix f d = inl e ->
  e = notAFunction
  /\ (forall s, preload <> PreloadSet s)
  /\ JsObject.has (stem f) (dynamicEntries idx) = true
  /\ JsObject.has (stem f) (entries idx) = false.
Proof.
  unfold injectFile. fold (stem f).
  destruct (JsObject.has (stem f) (entries idx)); [discriminate|].
  destruct (JsObject.has (stem f) (dynamicEntries idx)); [|discriminate].
  destruct preload as [|b|l|s|]; simpl.
  1-3, 5: intros H; injection H as <-; repeat split; discriminate.
  destruct (JsObject.get (stem f) (dynamicEntries idx)) as [n|];
    [destruct (bool_decide (n ∈ s))|];
    try destruct (extensionToType _); discriminate.
Qed.

Lemma forEachFile_error (preload : JsPreload) (files : list OutputFile)
    (d : Doc) (e : JsError) :
  forEachFile (injectFile o idx preload prefix) files d = inl e ->
  exists f d1, f ∈ files /\ injectFile o idx preload prefix f d1 = inl e.
Proof.
  revert d. induction files as [|g files IH]; intros d H; [discriminate|].
  simpl in H. destruct (injectFile o idx preload prefix g d) as [e'|d'] eqn:Hg.
  - injection H as ->. exists g, d. split; [apply list_elem_of_here | exact Hg].
  - destruct (IH d' H) as (f & d1 & Hin & Hf).
    exists f, d1. split; [now apply list_elem_of_further | exact Hf].
Qed.

End Emission.

(** X4: the injection pass of the hook (the externals before, the generated
    files, the externals after) raises an error in one case only: the
    preload option is the value true or another value without a [has]
    method, inject is not false, and some file has its stem in
    [dynamicEntries] and not in [entries]; the error is the type error of the
    call of [has]. With a preload that is absent, false, an array or a set
    the pass raises nothing. *)
Theorem injectAll_errors (o : Options) (files : list OutputFile) (d : Doc)
    (e : JsError) :
  injectAll o files d = inl e ->
  e = notAFunction
  /\ (preload o = PreloadBool true \/ preload o = PreloadOther)
  /\ inject o <> InjectBool false
  /\ exists f, f ∈ files
               /\ JsObject.has (stem f) (dynamicEntries (classify files)) = true
               /\ JsObject.has (stem f) (entries (classify files)) = false.
Proof.
  unfold injectAll. intros H.
  destruct (injectGenerated o files _) as [e'|d'] eqn:Hgen; [|discriminate].
  injection H as ->. unfold injectGenerated in Hgen.
  assert (Hinject : inject o <> InjectBool false).
  { intros Hfalse. rewrite Hfalse in Hgen. discriminate. }
  assert (Hrun : forEachFile
                   (injectFile o (classify files) (normalizePreload (preload o))
                      (normalizePrefix (onlinePath o))) files
                   (extrenalsProcessorFactory
                      (injectCSSandJSFactory (modules o) (nomodule o))
                      (externals o) "before" d)
                 = inl e).
  { destruct (inject o) as [|[|]|]; congruence. }
  destruct (forEachFile_error _ _ _ _ _ _ _ Hrun) as (f & d1 & Hin & Hf).
  destruct (injectFile_error _ _ _ _ _ _ _ Hf) as (-> & Hnoset & Hdyn & Hent).
  split; [reflexivity|]. split.
  - destruct (normalizePreload_shape (preload o)) as [Htrue | [Hother | [s Hs]]];
      [now left | now right | destruct (Hnoset s Hs)].
  - split; [exact Hinject|]. now exists f.
Qed.

Lemma injectAll_errors_witness :
  let o := {| inject := InjectUndefined; title := None; favicon := None;
              meta := None; externals := None; preload := PreloadOther;
              modules := None; nomodule := None; onlinePath := None |} in
  let files := [chunk "main.js" "main" true false;
                chunk "lazy-7c.js" "lazy" false true] in
  injectAll o files emptyDoc = inl notAFunction
  /\ (preload o = PreloadBool true \/ preload o = PreloadOther).
Proof.
  intros o files.
  assert (Hrun : injectAll o files emptyDoc = inl notAFunction)
    by (vm_compute; reflexivity).
  split; [exact Hrun|].
  destruct (injectAll_errors o files emptyDoc notAFunction Hrun) as (_ & H & _).
  exact H.
Defined.

(** X5: with inject set to false no generated file is looked at: the emission
    adds the externals of the position before and then those of the position
    after, and raises nothing, whatever the preload option. *)
Theorem inject_false_externals_only (o : Options) (files : list OutputFile) (d : Doc) :
  inject o = InjectBool false ->
  let emit := emitExternal (fun e => defaultParent (externalType e))
                (modules o) (nomodule o) in
  let l := default [] (externals o) in
  injectAll o files d
  = inr (fold_left emit (atPosition "after" l)
           (fold_left emit (atPosition "before" l) d)).
Proof.
  intros Hfalse emit l. unfold injectAll, injectGenerated. rewrite Hfalse.
  f_equal. subst l. destruct (externals o) as [l|]; [|reflexivity].
  simpl default. now rewrite !processExternals_filter.
Qed.

Lemma inject_false_externals_only_witness :
  let o := {| inject := InjectBool false; title := None; favicon := None;
              meta := None;
              externals := Some [external (Some "after") "b.css";
                                 external (Some "before") "a.js"];
              preload := PreloadBool true; modules := None; nomodule := None;
              onlinePath := None |} in
  inject o = InjectBool false
  /\ injectAll o [chunk "lazy.js" "lazy" false true] emptyDoc
     = inr {| html := HTMLElement "html" ""
                        [HTMLElement "head" ""
                           [TextNode nl; linkStylesheet "" "b.css"];
                         HTMLElement "body" ""
                           [TextNode nl; scriptTag "" "" "a.js"]];
              head := [0]; body := [1] |}.
Proof.
  intros o. split; [reflexivity|].
  rewrite (inject_false_externals_only o _ emptyDoc eq_refl). reflexivity.
Defined.

(** ** What the name index holds *)

Section IndexLookup.

Variable k : string.
Hypothesis Hk : k <> "__proto__".

Lemma set_lookup_same (v : string) (o : gmap string string) :
  JsObject.set k v o !! k = Some v.
Proof. unfold JsObject.set. rewrite decide_False by exact Hk. apply lookup_insert_eq. Qed.

Lemma set_lookup_other (k' v : string) (o : gmap string string) :
  k' <> k -> JsObject.set k' v o !! k = o !! k.
Proof.
  intros Hne. unfold JsObject.set. case_decide; [reflexivity|].
  now apply lookup_insert_ne.
Qed.

Lemma bundleReducer_entries_lookup (idx : NameIndex) (f : OutputFile) :
  entries (bundleReducer idx f) !! k
  = if entryChunk k f then Some (name f) else entries idx !! k.
Proof.
  unfold bundleReducer, entryChunk. fold (stem f).
  destruct (isChunk f), (isEntry f), (isDynamicEntry f); simpl; try reflexivity;
    destruct (String.eqb_spec (stem f) k) as [->|Hne];
    auto using set_lookup_same, set_lookup_other.
Qed.

Lemma bundleReducer_dynamic_lookup (idx : NameIndex) (f : OutputFile) :
  dynamicEntries (bundleReducer idx f) !! k
  = if dynamicChunk k f then Some (name f) else dynamicEntries idx !! k.
Proof.
  unfold bundleReducer, dynamicChunk. fold (stem f).
  destruct (isChunk f), (isEntry f), (isDynamicEntry f); simpl; try reflexivity;
    destruct (String.eqb_spec (stem f) k) as [->|Hne];
    auto using set_lookup_same, set_lookup_other.
Qed.

Lemma fold_entries_lookup (files : list OutputFile) (idx : NameIndex) :
  entries (fold_left bundleReducer files idx) !! k
  = match last (List.filter (entryChunk k) files) with
    | Some f => Some (name f)
    | None => entries idx !! k
    end.
Proof.
  revert idx. induction files as [|g files IH]; intros idx; [reflexivity|].
  cbn [fold_left List.filter]. rewrite IH, bundleReducer_entries_lookup.
  destruct (entryChunk k g); [|reflexivity].
  rewrite last_cons. now destruct (last (List.filter (entryChunk k) files)).
Qed.

Lemma fold_dynamic_lookup (files : list OutputFile) (idx : NameIndex) :
  dynamicEntries (fold_left bundleReducer files idx) !! k
  = match last (List.filter (dynamicChunk k) files) with
    | Some f => Some (name f)
    | None => dynamicEntries idx !! k
    end.
Proof.
  revert idx. induction files as [|g files IH]; intros idx; [reflexivity|].
  cbn [fold_left List.filter]. rewrite IH, bundleReducer_dynamic_lookup.
  destruct (dynamicChunk k g); [|reflexivity].
  rewrite last_cons. now destruct (last (List.filter (dynamicChunk k) files)).
Qed.

End IndexLookup.

Lemma set_proto (k v : string) (o : gmap string string) :
  o !! "__proto__" = None -> JsObject.set k v o !! "__proto__" = None.
Proof.
  intros H. unfold JsObject.set. case_decide as E; [exact H|].
  rewrite lookup_insert_ne; [exact H | congruence].
Qed.

Lemma fold_proto (files : list OutputFile) (idx : NameIndex) :
  entries idx !! "__proto__" = None ->
  dynamicEntries idx !! "__proto__" = None ->
  entries (fold_left bundleReducer files idx) !! "__proto__" = None
  /\ dynamicEntries (fold_left bundleReducer files idx) !! "__proto__" = None.
Proof.
  revert idx. induction files as [|g files IH]; intros idx He Hd; [now split|].
  cbn [fold_left]. apply IH; unfold bundleReducer;
    destruct (isChunk g), (isEntry g), (isDynamicEntry g); simpl;
    auto using set_proto.
Qed.

(** X6: the name index, key by key. Under a stem other than [__proto__],
    [entries] holds the logical name of the last chunk of that stem marked
    isEntry, and [dynamicEntries] that of the last chunk of that stem marked
    isDynamicEntry and not isEntry; a stem no such chunk has is no key, so an
    asset gives no key and a chunk marked both ways goes to [entries] alone.
    The stem [__proto__] is never a key. *)
Theorem classify_lookup (files : list OutputFile) (k : string) :
  entries (classify files) !! k
  = (if decide (k = "__proto__") then None
     else name <$> last (List.filter (entryChunk k) files))
  /\ dynamicEntries (classify files) !! k
     = (if decide (k = "__proto__") then None
        else name <$> last (List.filter (dynamicChunk k) files)).
Proof.
  unfold classify. case_decide as E.
  - subst k. now apply fold_proto.
  - rewrite (fold_entries_lookup k E), (fold_dynamic_lookup k E).
    destruct (last (List.filter (entryChunk k) files)),
      (last (List.filter (dynamicChunk k) files)); split; reflexivity.
Qed.

Lemma filter_none {A} (p : A -> bool) (l : list A) :
  (forall x, x ∈ l -> p x = false) -> List.filter p l = [].
Proof.
  induction l as [|x l IH]; intros H; [reflexivity|]. simpl.
  rewrite (H x (list_elem_of_here _ _)). apply IH.
  intros y Hy. apply H. now apply list_elem_of_further.
Qed.

Lemma inherited_proto (k : string) : JsObject.inherited k = false -> k <> "__proto__".
Proof. intros H ->. vm_compute in H. discriminate H. Qed.

(** X7: the files that take the entries branch of the loop are those whose stem
    is the stem of a chunk marked isEntry, and those whose stem is the name
    of a member every object inherits ([constructor], [toString], ...),
    which the [in] operator finds in [entries] whatever the bundle holds. *)
Theorem entries_branch_iff (files : list OutputFile) (f : OutputFile) :
  JsObject.has (stem f) (entries (classify files)) = true
  <-> JsObject.inherited (stem f) = true
      \/ exists e, e ∈ files /\ isChunk e = true /\ isEntry e = true
                   /\ stem e = stem f.
Proof.
  split.
  - unfold JsObject.has. intros H. apply orb_true_iff in H as [H|H]; [|now left].
    destruct (JsObject.inherited (stem f)) eqn:Hinh; [now left | right].
    apply bool_decide_eq_true in H as [n Hn].
    unfold classify in Hn.
    rewrite (fold_entries_lookup _ (inherited_proto _ Hinh)) in Hn.
    destruct (last (List.filter (entryChunk (stem f)) files)) as [e|] eqn:Hlast;
      [|unfold emptyIndex in Hn; simpl in Hn; rewrite lookup_empty in Hn;
        discriminate].
    apply last_Some_elem_of, list_elem_of_In, filter_In in Hlast as [Hin He].
    unfold entryChunk in He.
    apply andb_true_iff in He as [He Hs]. apply andb_true_iff in He as [Hc He].
    exists e. repeat split; try assumption.
    + now apply list_elem_of_In.
    + now apply String.eqb_eq.
  - intros [Hinh | (e & Hin & Hc & He & Hs)].
    + unfold JsObject.has. rewrite Hinh. apply orb_true_r.
    + rewrite <- Hs. now apply fold_entries_entry.
Qed.

(** X8: a file is passed over, with no tag and no error whatever the preload
    option, when its stem is no inherited member name and no chunk of its
    stem is marked isEntry or isDynamicEntry. *)
Theorem unrelated_file_untouched (o : Options) (files : list OutputFile)
    (preload : JsPreload) (prefix : string) (f : OutputFile) (d : Doc) :
  JsObject.inherited (stem f) = false ->
  (forall e, e ∈ files -> isChunk e = true -> stem e = stem f ->
             isEntry e = false /\ isDynamicEntry e = false) ->
  injectFile o (classify files) preload prefix f d = inr d.
Proof.
  intros Hinh Hnone.
  pose proof (inherited_proto _ Hinh) as Hproto.
  assert (He : entries (classify files) !! stem f = None).
  { unfold classify.
    rewrite (fold_entries_lookup _ Hproto), filter_none; [apply lookup_empty|].
    intros e Hin. unfold entryChunk.
    destruct (isChunk e) eqn:Hc; [|reflexivity].
    destruct (String.eqb_spec (stem e) (stem f)) as [Hs|Hs];
      [|now rewrite andb_false_r].
    destruct (Hnone e Hin Hc Hs) as [-> _]. reflexivity. }
  assert (Hd : dynamicEntries (classify files) !! stem f = None).
  { unfold classify.
    rewrite (fold_dynamic_lookup _ Hproto), filter_none; [apply lookup_empty|].
    intros e Hin. unfold dynamicChunk.
    destruct (isChunk e) eqn:Hc; [|reflexivity].
    destruct (String.eqb_spec (stem e) (stem f)) as [Hs|Hs];
      [|now rewrite andb_false_r].
    destruct (Hnone e Hin Hc Hs) as [_ ->]. now rewrite andb_false_r. }
  unfold injectFile. fold (stem f). unfold JsObject.has.
  rewrite He, Hd, Hinh.
  rewrite !bool_decide_eq_false_2 by (intros [x Hx]; discriminate Hx).
  reflexivity.
Qed.

Lemma unrelated_file_untouched_witness :
  let files := [chunk "main.js" "main" true false; asset "logo.png"] in
  let o := {| inject := InjectUndefined; title := None; favicon := None;
              meta := None; externals := None; preload := PreloadBool true;
              modules := None; nomodule := None; onlinePath := None |} in
  JsObject.inherited (stem (asset "logo.png")) = false
  /\ injectFile o (classify files) (PreloadBool true) "" (asset "logo.png") emptyDoc
     = inr emptyDoc.
Proof.
  intros files o. split; [reflexivity|].
  apply unrelated_file_untouched; [reflexivity|].
  intros e Hin Hc Hs.
  apply elem_of_cons in Hin as [-> | Hin]; [vm_compute in Hs; discriminate Hs|].
  apply list_elem_of_singleton in Hin as ->. discriminate Hc.
Defined.

(** ** What the injection does to head and body *)

Section Growth.

Lemma diverge_sym (p q : list nat) : diverge p q = diverge q p.
Proof.
  revert q. induction p as [|i p IH]; intros [|j q]; simpl; try reflexivity.
  rewrite (Nat.eqb_sym j i). destruct (Nat.eqb i j); [apply IH | reflexivity].
Qed.

(** A change at one path leaves the object at a path that parts from it. *)
Lemma nodeAt_alterAt_diverge (f : Node -> Node) (p q : list nat) (n : Node) :
  diverge p q = true -> Dom.nodeAt p (Dom.alterAt f q n) = Dom.nodeAt p n.
Proof.
  revert q n. induction p as [|i p IH]; intros [|j q] n H; simpl in H;
    try discriminate.
  destruct n as [t a cs|s]; [|reflexivity].
  rewrite alterAt_child. simpl Dom.nodeAt.
  destruct (Nat.eqb_spec i j) as [->|Hne].
  - rewrite list_lookup_alter_eq. destruct (cs !! j) as [c|]; [|reflexivity].
    simpl. now apply IH.
  - rewrite list_lookup_alter_ne by congruence. reflexivity.
Qed.

Lemma tagsAdded_refl (d : Doc) : tagsAdded d d.
Proof.
  repeat split. intros p t a cs H. exists []. split; [constructor|].
  simpl. now rewrite app_nil_r.
Qed.

Lemma parentPath_same (d d' : Doc) (p : Parent) :
  head d' = head d -> body d' = body d -> parentPath d' p = parentPath d p.
Proof. intros Hh Hb. destruct p; assumption. Qed.

Lemma tagsAdded_trans (d1 d2 d3 : Doc) :
  tagsAdded d1 d2 -> tagsAdded d2 d3 -> tagsAdded d1 d3.
Proof.
  intros (Hh1 & Hb1 & H1) (Hh2 & Hb2 & H2).
  split; [congruence|]. split; [congruence|].
  intros p t a cs Hat.
  destruct (H1 p t a cs Hat) as (tags1 & Hall1 & Hat1).
  rewrite <- (parentPath_same d1 d2 p Hh1 Hb1) in Hat1.
  destruct (H2 p t a _ Hat1) as (tags2 & Hall2 & Hat2).
  rewrite (parentPath_same d1 d2 p Hh1 Hb1) in Hat2.
  exists (tags1 ++ tags2)%list. split; [now apply Forall_app_2|].
  unfold lines in *. now rewrite flat_map_app, app_assoc.
Qed.

(** One tag added after a line break. *)
Lemma tagsAdded_tag (p : Parent) (x : Node) (d : Doc) :
  diverge (head d) (body d) = true -> isTag x = true ->
  tagsAdded d (appendTo p x (addNewLine p d)).
Proof.
  intros Hdiv Hx. split; [reflexivity|]. split; [reflexivity|].
  intros p' t a cs Hat.
  assert (Hsame : p' = p ->
            exists tags, Forall (fun x => isTag x = true) tags
              /\ Dom.nodeAt (parentPath d p') (html (appendTo p x (addNewLine p d)))
                 = Some (HTMLElement t a (cs ++ lines tags))).
  { intros ->. exists [x]. split; [now repeat constructor|].
    now apply nodeAt_tag_appended. }
  assert (Hother : diverge (parentPath d p') (parentPath d p) = true ->
            exists tags, Forall (fun x => isTag x = true) tags
              /\ Dom.nodeAt (parentPath d p') (html (appendTo p x (addNewLine p d)))
                 = Some (HTMLElement t a (cs ++ lines tags))).
  { intros Hpq. exists []. split; [constructor|].
    simpl lines. rewrite app_nil_r.
    unfold appendTo, addNewLine. simpl.
    rewrite !nodeAt_alterAt_diverge; [exact Hat | exact Hpq | exact Hpq]. }
  destruct p, p'.
  - now apply Hsame.
  - apply Hother. simpl. now rewrite diverge_sym.
  - apply Hother. exact Hdiv.
  - now apply Hsame.
Qed.

Lemma tagsAdded_diverge (d d' : Doc) :
  tagsAdded d d' -> diverge (head d) (body d) = true ->
  diverge (head d') (body d') = true.
Proof. now intros (-> & -> & _). Qed.

Lemma tagsAdded_emitter (modules nomodule : option bool) (url type : string)
    (pos : JsInject) (crossorigin : option string) (d : Doc) :
  diverge (head d) (body d) = true ->
  tagsAdded d (injectCSSandJSFactory modules nomodule url type pos crossorigin d).
Proof.
  intros Hdiv. unfold injectCSSandJSFactory.
  destruct (String.eqb type "css"); now apply tagsAdded_tag.
Qed.

Lemma tagsAdded_externals (modules nomodule : option bool)
    (externals : option (list External.t)) (processPos : string) (d : Doc) :
  diverge (head d) (body d) = true ->
  tagsAdded d (extrenalsProcessorFactory (injectCSSandJSFactory modules nomodule)
                 externals processPos d).
Proof.
  destruct externals as [l|]; [|intros _; apply tagsAdded_refl].
  unfold extrenalsProcessorFactory. revert d.
  induction l as [|e l IH]; intros d Hdiv; [apply tagsAdded_refl|].
  cbn [fold_left]. case_bool_decide; [|now apply IH].
  eapply tagsAdded_trans; [now apply tagsAdded_emitter|].
  apply IH. eapply tagsAdded_diverge; [|exact Hdiv]. now apply tagsAdded_emitter.
Qed.

Lemma tagsAdded_file (o : Options) (idx : NameIndex) (preload : JsPreload)
    (prefix : string) (f : OutputFile) (d d' : Doc) :
  diverge (head d) (body d) = true ->
  injectFile o idx preload prefix f d = inr d' -> tagsAdded d d'.
Proof.
  intros Hdiv. unfold injectFile.
  destruct (JsObject.has _ (entries idx)).
  { intros H. injection H as <-. now apply tagsAdded_emitter. }
  destruct (JsObject.has _ (dynamicEntries idx));
    [|intros H; injection H as <-; apply tagsAdded_refl].
  destruct (preloadHas preload _) as [e|[|]]; [discriminate| |].
  - destruct (extensionToType _).
    + intros H. injection H as <-. now apply tagsAdded_tag.
    + intros H. injection H as <-. apply tagsAdded_refl.
  - intros H. injection H as <-. apply tagsAdded_refl.
Qed.

Lemma tagsAdded_files (step : OutputFile -> Doc -> JsError + Doc)
    (files : list OutputFile) :
  (forall f d d', diverge (head d) (body d) = true -> step f d = inr d' ->
                  tagsAdded d d') ->
  forall d d', diverge (head d) (body d) = true ->
               forEachFile step files d = inr d' -> tagsAdded d d'.
Proof.
  intros Hstep. induction files as [|f files IH]; intros d d' Hdiv H; simpl in H.
  - injection H as <-. apply tagsAdded_refl.
  - destruct (step f d) as [e|d1] eqn:Hf; [discriminate|].
    pose proof (Hstep f d d1 Hdiv Hf) as H1.
    eapply tagsAdded_trans; [exact H1|].
    apply IH; [|exact H].
    now apply (tagsAdded_diverge d d1).
Qed.

End Growth.

(** X9: when head and body are neither one the other nor one below the other,
    an emission that succeeds only adds to them: both keep every child they
    had, in order, followed by the added tags, each a link or a script
    element after a line break; the head and body objects stay the same. *)
Theorem injectAll_only_appends (o : Options) (files : list OutputFile) (d d' : Doc) :
  diverge (head d) (body d) = true ->
  injectAll o files d = inr d' ->
  tagsAdded d d'.
Proof.
  intros Hdiv. unfold injectAll.
  pose proof (tagsAdded_externals (modules o) (nomodule o) (externals o)
                "before" d Hdiv) as H1.
  set (d1 := extrenalsProcessorFactory _ (externals o) "before" d) in *.
  assert (Hdiv1 : diverge (head d1) (body d1) = true)
    by now apply (tagsAdded_diverge d d1).
  destruct (injectGenerated o files d1) as [e|d2] eqn:Hgen; [discriminate|].
  intros H. injection H as <-.
  assert (H2 : tagsAdded d1 d2).
  { unfold injectGenerated in Hgen.
    assert (Hloop : forall step, forEachFile step files d1 = inr d2 ->
                                 (forall f x x', diverge (head x) (body x) = true ->
                                                 step f x = inr x' -> tagsAdded x x') ->
                                 tagsAdded d1 d2).
    { intros step Hrun Hstep. now apply (tagsAdded_files step files Hstep). }
    destruct (inject o) as [|[|]|];
      try (eapply Hloop; [exact Hgen | intros f x x'; apply tagsAdded_file]).
    injection Hgen as <-. apply tagsAdded_refl. }
  eapply tagsAdded_trans; [exact H1|].
  eapply tagsAdded_trans; [exact H2|].
  apply tagsAdded_externals. now apply (tagsAdded_diverge d1 d2).
Qed.

Lemma injectAll_only_appends_witness :
  let o := {| inject := InjectUndefined; title := None; favicon := None;
              meta := None; externals := Some [external (Some "before") "a.css"];
              preload := PreloadUndefined; modules := None; nomodule := None;
              onlinePath := None |} in
  let d := openDoc describedTemplate in
  diverge (head d) (body d) = true
  /\ exists d', injectAll o [chunk "main.js" "main" true false] d = inr d'
                /\ tagsAdded d d'.
Proof.
  intros o d. split; [reflexivity|].
  eexists. split; [reflexivity|].
  apply (injectAll_only_appends o [chunk "main.js" "main" true false] d);
    reflexivity.
Defined.

(** ** The element [getChildElement] returns *)

Lemma hasTag_new (tag : string) : Dom.hasTag tag (HTMLElement tag "" []) = true.
Proof. apply String.eqb_refl. Qed.

Lemma querySelector_found_at (tag : string) (n : Node) (p : list nat) :
  Dom.querySelector tag n = Some p ->
  exists x, Dom.nodeAt p n = Some x /\ Dom.hasTag tag x = true.
Proof.
  rewrite querySelector_first. intros H.
  pose proof (querySelectorAll_sound tag n) as Hsound.
  destruct (Dom.querySelectorAll tag n) as [|[q x] l]; [discriminate|].
  simpl in H. injection H as <-.
  apply Forall_cons in Hsound as [(_ & Hat & Htag) _]. now exists x.
Qed.

Lemma querySelector_snoc_new (tag t a : string) (cs : list Node) :
  Dom.querySelector tag (HTMLElement t a cs) = None ->
  Dom.querySelector tag (HTMLElement t a (cs ++ [HTMLElement tag "" []]))
  = Some [length cs].
Proof.
  intros Hnone. induction cs as [|c cs IH].
  - simpl app. now rewrite querySelector_cons, hasTag_new.
  - rewrite querySelector_cons in Hnone.
    destruct (Dom.hasTag tag c) eqn:Htag; [discriminate|].
    destruct (Dom.querySelector tag c) eqn:Hc; [discriminate|].
    destruct (Dom.querySelector tag (HTMLElement t a cs)) eqn:Hcs; [discriminate|].
    change ((c :: cs) ++ [HTMLElement tag "" []])%list
      with (c :: (cs ++ [HTMLElement tag "" []]))%list.
    rewrite querySelector_cons, Htag, Hc, (IH eq_refl). reflexivity.
Qed.

Lemma getChildElement_post (t a : string) (cs : list Node) (tag : string)
    (append : bool) :
  let node := HTMLElement t a cs in
  let node' := fst (Dom.getChildElement node tag append) in
  let child := snd (Dom.getChildElement node tag append) in
  Dom.querySelector tag node' = Some child
  /\ (exists x, Dom.nodeAt child node' = Some x /\ Dom.hasTag tag x = true)
  /\ Dom.getChildElement node' tag append = (node', child)
  /\ (exists more, Dom.childNodes node' = (more ++ cs)%list
                   \/ Dom.childNodes node' = (cs ++ more)%list).
Proof.
  intros node node' child.
  assert (Hq : Dom.querySelector tag node' = Some child
               /\ exists more, Dom.childNodes node' = (more ++ cs)%list
                               \/ Dom.childNodes node' = (cs ++ more)%list).
  { subst node' child. unfold Dom.getChildElement.
    destruct (Dom.querySelector tag node) as [p|] eqn:Hnode; simpl.
    - split; [exact Hnode|]. exists []. now left.
    - destruct append; simpl.
      + split; [exact (querySelector_snoc_new tag t a cs Hnode)|].
        exists [HTMLElement tag "" []]. now right.
      + split.
        * change (Dom.querySelector tag
                    (HTMLElement t a (HTMLElement tag "" [] :: cs)) = Some [0]).
          now rewrite querySelector_cons, hasTag_new.
        * exists [HTMLElement tag "" []]. now left. }
  destruct Hq as [Hq Hmore].
  split; [exact Hq|]. split; [now apply querySelector_found_at|].
  split; [|exact Hmore].
  unfold Dom.getChildElement at 1. now rewrite Hq.
Qed.

(** X10: the child [getChildElement] returns for an element is in the tree it
    leaves, has the tag, and is the one a query for the tag finds there, so
    a second call returns the same child and creates nothing; the children
    the element had are kept, the new child before or after them. *)
Theorem getChildElement_found (t a : string) (cs : list Node) (tag : string)
    (append : bool) :
  let node := HTMLElement t a cs in
  let node' := fst (Dom.getChildElement node tag append) in
  let child := snd (Dom.getChildElement node tag append) in
  Dom.querySelector tag node' = Some child
  /\ (exists x, Dom.nodeAt child node' = Some x /\ Dom.hasTag tag x = true)
  /\ Dom.getChildElement node' tag append = (node', child)
  /\ (exists more, Dom.childNodes node' = (more ++ cs)%list
                   \/ Dom.childNodes node' = (cs ++ more)%list).
Proof. apply getChildElement_post. Qed.

Lemma nodeAt_appendChild (p : list nat) (c n x : Node) :
  p <> [] -> Dom.nodeAt p n = Some x -> Dom.nodeAt p (Dom.appendChild c n) = Some x.
Proof.
  destruct p as [|i q]; [contradiction|]. intros _ H.
  destruct n as [t a cs|s]; [|discriminate]. simpl in *.
  destruct (cs !! i) as [y|] eqn:Hy; [|discriminate].
  now rewrite (lookup_app_l_Some _ _ _ _ Hy).
Qed.

(** X11: whatever stands below the html element, the hook ends up holding a head
    that is an element of tag head and a body that is an element of tag
    body, both in the tree. *)
Theorem openDoc_valid (t a : string) (cs : list Node) :
  let d := openDoc (HTMLElement t a cs) in
  (exists h, Dom.nodeAt (head d) (html d) = Some h /\ Dom.hasTag "head" h = true)
  /\ (exists b, Dom.nodeAt (body d) (html d) = Some b /\ Dom.hasTag "body" b = true).
Proof.
  intros d. subst d. unfold openDoc.
  destruct (getChildElement_post t a cs "head" false) as (Hq1 & (h & Hh & Hth) & _).
  destruct (Dom.getChildElement (HTMLElement t a cs) "head" false) as [h1 hp] eqn:E1.
  simpl in Hq1, Hh.
  assert (Helt : exists cs1, h1 = HTMLElement t a cs1).
  { unfold Dom.getChildElement in E1.
    destruct (Dom.querySelector "head" (HTMLElement t a cs)); injection E1 as <- <-;
      eauto. }
  destruct Helt as [cs1 ->].
  destruct (getChildElement_post t a cs1 "body" true) as (Hq2 & (b & Hb & Htb) & _).
  destruct (Dom.getChildElement (HTMLElement t a cs1) "body" true) as [h2 bp] eqn:E2.
  simpl in Hq2, Hb. simpl. split; [|now exists b].
  exists h. split; [|exact Hth].
  unfold Dom.getChildElement in E2.
  destruct (Dom.querySelector "body" (HTMLElement t a cs1)).
  - injection E2 as <- <-. exact Hh.
  - injection E2 as <- <-.
    apply (nodeAt_appendChild hp (HTMLElement "body" "" []) (HTMLElement t a cs1) h);
      [|exact Hh].
    now apply (querySelector_nonempty "head" (HTMLElement t a cs1)).
Qed.

(** ** The decorators and the rest of the document *)

Lemma appendChild_element (x : Node) (t a : string) (cs : list Node) :
  Dom.appendChild x (HTMLElement t a cs) = HTMLElement t a (cs ++ [x]).
Proof. reflexivity. Qed.

Lemma applyMarkers_appends_element (favicons : list string) (t a : string)
    (cs : list Node) :
  applyMarkers favicons (HTMLElement t a cs)
  = HTMLElement t a (cs ++ flat_map (fun f => [TextNode f; TextNode nl]) favicons).
Proof.
  unfold applyMarkers. revert cs.
  induction favicons as [|f favicons IH]; intros cs.
  - simpl. now rewrite app_nil_r.
  - cbn [fold_left flat_map]. rewrite !appendChild_element, IH.
    f_equal. now rewrite <- !app_assoc.
Qed.

(** X12: the markers are added at the end of head in their order, each followed
    by a line break; what head held stays in front of them. *)
Theorem applyMarkers_appends (favicons : list string) (t a : string) (cs : list Node) :
  applyMarkers favicons (HTMLElement t a cs)
  = HTMLElement t a (cs ++ flat_map (fun f => [TextNode f; TextNode nl]) favicons).
Proof. apply applyMarkers_appends_element. Qed.

(** X13: the decorators work on head alone: when head and body are neither
    the same object nor one below the other, body comes out of them as it
    went in. *)
Theorem decorate_keeps_body (attributes : string -> string -> option string)
    (contentNodes : string -> list Node) (o : Options) (favicons : list string)
    (d : Doc) :
  diverge (body d) (head d) = true ->
  body (decorate attributes contentNodes o favicons d) = body d
  /\ Dom.nodeAt (body d) (html (decorate attributes contentNodes o favicons d))
     = Dom.nodeAt (body d) (html d).
Proof.
  intros Hdiv. split; [reflexivity|].
  unfold decorate, onHead. simpl.
  now rewrite !nodeAt_alterAt_diverge.
Qed.

Lemma decorate_keeps_body_witness :
  let d := openDoc describedTemplate in
  diverge (body d) (head d) = true
  /\ Dom.nodeAt (body d)
       (html (decorate SimpleAttributes.attributes textContent decorating
                ["<!-- icons -->"] d))
     = Some (HTMLElement "body" "" []).
Proof.
  intros d. split; [reflexivity|].
  destruct (decorate_keeps_body SimpleAttributes.attributes textContent decorating
              ["<!-- icons -->"] d eq_refl) as [_ H].
  rewrite H. reflexivity.
Defined.

(** ** What the meta loop leaves in head *)

(** X15: after the meta loop, with distinct names, a reader that gives back the
    names and childless meta elements: a search for a configured name finds
    an element, and when that element is a child of head it is the new meta
    element of the name; every child head had is still at its index, unless
    it was the element found for a configured name, in which case the new
    meta element of that name stands there. *)
Theorem applyMeta_result (attributes : string -> string -> option string)
    (t a : string) (cs : list Node) (entries : list (string * string)) :
  let search k n := findByAttr attributes "name" k (Dom.querySelectorAll "meta" n) in
  voidMetas cs -> NoDup entries.*1 -> readsNames attributes entries ->
  exists cur,
    applyMeta attributes (Some entries) (HTMLElement t a cs) = HTMLElement t a cur
    /\ (forall k c, (k, c) ∈ entries ->
          exists p x, search k (HTMLElement t a cur) = Some (p, x)
                      /\ forall i, p = [i] -> x = newMeta k c /\ cur !! i = Some x)
    /\ (forall i old, cs !! i = Some old ->
          cur !! i = Some old
          \/ exists k c, (k, c) ∈ entries
                         /\ search k (HTMLElement t a cs) = Some ([i], old)
                         /\ cur !! i = Some (newMeta k c)).
Proof.
  intros search Hvoid Hnodup Hread.
  destruct (metaLoop_inv attributes t a cs Hvoid entries [] cs [] (metaInv_start _ _)
              Hnodup) as (cur & gone & Hfold & Hinv).
  { intros k _ Hin. now apply elem_of_nil in Hin. }
  { exact Hread. }
  simpl app in Hinv. exists cur. split; [|split].
  - unfold applyMeta. now rewrite Hfold.
  - intros k c Hin.
    pose proof (find_firstMatch attributes "meta" "name" k t a cur) as Hfind.
    pose proof (inv_some _ _ _ _ _ Hinv k c Hin) as Hsome.
    pose proof (inv_done _ _ _ _ _ Hinv k c) as Hdone.
    unfold firstMeta in *.
    destruct (firstMatch attributes "meta" "name" k cur) as [[i [|]]|];
      [| |contradiction].
    + destruct Hfind as (x & Hx & _ & Hfound).
      exists [i], x. split; [exact Hfound|].
      intros j Hj. injection Hj as <-.
      pose proof (Hdone i Hin eq_refl) as Hnew. rewrite Hx in Hnew.
      injection Hnew as ->. split; [reflexivity | exact Hx].
    + destruct Hfind as (q & n & Hq & Hfound).
      exists (i :: q), n. split; [exact Hfound|].
      intros j Hj. injection Hj as _ ->. contradiction.
  - intros i old Hold.
    destruct (inv_orig _ _ _ _ _ Hinv i old Hold) as [H | (k & Hk & Hfirst)];
      [now left | right].
    apply list_elem_of_fmap in Hk as ([k' c] & -> & Hin). simpl in *.
    exists k', c. split; [exact Hin|].
    pose proof (find_firstMatch attributes "meta" "name" k' t a cs) as Hfind.
    unfold firstMeta in Hfirst. rewrite Hfirst in Hfind.
    destruct Hfind as (x & Hx & _ & Hfound).
    rewrite Hold in Hx. injection Hx as <-. split; [exact Hfound|].
    apply (inv_done _ _ _ _ _ Hinv k' c i Hin).
    now apply (inv_kept _ _ _ _ _ Hinv).
Qed.

Lemma applyMeta_result_witness :
  let old := HTMLElement "meta" ("name=" ++ quoted "description" ++ " content="
                                 ++ quoted "old") [] in
  let entries := [("description", "demo"); ("author", "me")] in
  (voidMetas [old] /\ NoDup entries.*1
   /\ readsNames SimpleAttributes.attributes entries)
  /\ exists cur,
      applyMeta SimpleAttributes.attributes (Some entries) (HTMLElement "head" "" [old])
      = HTMLElement "head" "" cur
      /\ forall k c, (k, c) ∈ entries ->
           exists p x,
             findByAttr SimpleAttributes.attributes "name" k
               (Dom.querySelectorAll "meta" (HTMLElement "head" "" cur))
             = Some (p, x).
Proof.
  intros old entries.
  assert (Hvoid : voidMetas [old]) by repeat constructor.
  assert (Hnodup : NoDup entries.*1).
  { simpl. repeat constructor; rewrite ?elem_of_cons, ?elem_of_nil;
      intros H; repeat destruct H as [H|H]; try discriminate H; exact H. }
  assert (Hread : readsNames SimpleAttributes.attributes entries)
    by repeat constructor.
  split; [repeat split; assumption|].
  destruct (applyMeta_result SimpleAttributes.attributes "head" "" [old] entries
              Hvoid Hnodup Hread) as (cur & Hrun & Hfound & _).
  exists cur. split; [exact Hrun|].
  intros k c Hin. destruct (Hfound k c Hin) as (p & x & Hs & _). now exists p, x.
Defined.

(** ** From the validation to the emission *)

Lemma checkExternals_passed (l : list External.t) :
  checkExternals l = inr tt -> Forall passes l.
Proof.
  induction l as [|e l IH]; intros H; [constructor|]. simpl in H.
  destruct (checkEnum ExternalPosition (External.pos e)) eqn:Hp; [|discriminate].
  destruct (checkEnum Crossorigin (External.crossorigin e)) eqn:Hc; [|discriminate].
  constructor; [|now apply IH].
  split; [now apply checkEnum_position | now apply checkEnum_crossorigin].
Qed.

Lemma atPosition_cons (processPos : string) (e : External.t) (l : list External.t) :
  atPosition processPos (e :: l)
  = if bool_decide (External.pos e = Some processPos)
    then e :: atPosition processPos l else atPosition processPos l.
Proof.
  unfold atPosition. rewrite filter_cons.
  case_bool_decide; [now rewrite decide_True | now rewrite decide_False].
Qed.

(** X18: of a list of externals that passed the validation, the emission uses
    those with a position, each once: the ones emitted before the generated
    tags and the ones emitted after them are together, up to their order,
    the externals whose position is given and not empty. An external without
    a position passes the validation and is never emitted. *)
Theorem validated_externals_emitted (modules nomodule : option bool)
    (l : list External.t) (d : Doc) :
  let process := extrenalsProcessorFactory (injectCSSandJSFactory modules nomodule)
                   (Some l) in
  let emit := emitExternal (fun e => defaultParent (externalType e)) modules nomodule in
  buildStartExternals (Some l) = inr tt ->
  process "before" d = fold_left emit (atPosition "before" l) d
  /\ process "after" d = fold_left emit (atPosition "after" l) d
  /\ (atPosition "before" l ++ atPosition "after" l)%list
     ≡ₚ List.filter (fun e => truthyStr (External.pos e)) l.
Proof.
  intros process emit Hok.
  split; [apply processExternals_filter|]. split; [apply processExternals_filter|].
  apply checkExternals_passed in Hok. clear process emit d.
  induction Hok as [|e l [Hpos _] _ IH]; [reflexivity|].
  rewrite !atPosition_cons. cbn [List.filter].
  destruct Hpos as [Hp | [Hp | [Hp | Hp]]]; rewrite Hp; simpl.
  - exact IH.
  - exact IH.
  - now constructor.
  - rewrite <- Permutation_middle. now constructor.
Qed.

Lemma validated_externals_emitted_witness :
  let l := [external (Some "after") "b.js"; external None "c.js";
            external (Some "before") "a.css"] in
  buildStartExternals (Some l) = inr tt
  /\ (atPosition "before" l ++ atPosition "after" l)%list
     ≡ₚ [external (Some "after") "b.js"; external (Some "before") "a.css"].
Proof.
  intros l. split; [reflexivity|].
  destruct (validated_externals_emitted None None l emptyDoc eq_refl) as (_ & _ & H).
  exact H.
Defined.

(** ** The checks of [outputOptions] and of [buildStart] *)

Lemma formatSupportsModules_true (f : option string) :
  formatSupportsModules f = true
  <-> f = Some "es" \/ f = Some "esm" \/ f = Some "module".
Proof.
  unfold formatSupportsModules. rewrite !orb_true_iff, !bool_decide_eq_true.
  tauto.
Qed.

(** X19: [outputOptions] lets modules and nomodule pass exactly when they are not
    both on, modules is on only for one of the formats es, esm and module,
    and nomodule is on only for another format. *)
Theorem outputOptionsModules_passes (modules nomodule : option bool)
    (format : option string) :
  let native := format = Some "es" \/ format = Some "esm" \/ format = Some "module" in
  outputOptionsModules modules nomodule format = inr tt
  <-> (truthyFlag modules = true -> truthyFlag nomodule = false /\ native)
      /\ (truthyFlag nomodule = true -> ~ native).
Proof.
  intros native. subst native. rewrite <- formatSupportsModules_true.
  unfold outputOptionsModules, checkModulesExclusive, checkModulesOption.
  destruct (truthyFlag modules), (truthyFlag nomodule),
    (formatSupportsModules format); simpl; split;
    try discriminate; try (intros _; split; intros; try split; congruence);
    intros [H1 H2]; try reflexivity;
    try (destruct (H1 eq_refl); congruence);
    try (exfalso; now apply (H2 eq_refl)).
Qed.

(** X20: once [outputOptions] has passed, a script tag opens with [type="module"]
    only when the output format is es, esm or module, and with the bare
    [nomodule] only when it is another format. *)
Theorem outputOptions_module_scripts (modules nomodule : option bool)
    (format : option string) :
  outputOptionsModules modules nomodule format = inr tt ->
  (moduleattr modules nomodule = "type=" ++ quoted "module" ++ " "
   /\ formatSupportsModules format = true)
  \/ (moduleattr modules nomodule = "nomodule "
      /\ formatSupportsModules format = false)
  \/ (moduleattr modules nomodule = ""
      /\ truthyFlag modules = false /\ truthyFlag nomodule = false).
Proof.
  unfold outputOptionsModules, checkModulesExclusive, checkModulesOption, moduleattr.
  destruct (truthyFlag modules), (truthyFlag nomodule),
    (formatSupportsModules format); simpl; try discriminate; intros _; auto.
Qed.

Lemma outputOptions_module_scripts_witness :
  outputOptionsModules (Some true) None (Some "esm") = inr tt
  /\ moduleattr (Some true) None = "type=" ++ quoted "module" ++ " "
  /\ outputOptionsModules (Some true) None (Some "iife")
     = inl (PluginError
              ("The `modules` option is set to true but the output.format is iife, "
               ++ "consider to use another format or switch off the option")).
Proof.
  split; [reflexivity|].
  destruct (outputOptions_module_scripts (Some true) None (Some "esm") eq_refl)
    as [[H _] | [[H _] | [H _]]]; (split; [exact H || discriminate H | reflexivity]).
Defined.

Section BuildStartChecks.

Variables existsSync isFile : string -> bool.

Let regular (p : string) : bool := existsSync p && isFile p.

Lemma checkInject_passes (inject : JsInject) :
  BuildStart.checkInject inject = inr tt
  <-> forall s, inject = InjectString s -> s = "head" \/ s = "body".
Proof.
  destruct inject as [|b|s]; simpl; try (split; [intros _ s' H; discriminate H | reflexivity]).
  destruct (String.eqb_spec s "head") as [->|Hh]; simpl.
  { split; [intros _ s' H; injection H as <-; now left | reflexivity]. }
  destruct (String.eqb_spec s "body") as [->|Hb]; simpl.
  { split; [intros _ s' H; injection H as <-; now right | reflexivity]. }
  split; [discriminate|]. intros H. destruct (H s eq_refl); contradiction.
Qed.

Lemma checkBoolean_passes (name : string) (v : JsValue) :
  checkBoolean name v = inr tt <-> forall json, v <> VOther json.
Proof.
  destruct v as [|b|json]; simpl; split; try reflexivity; try discriminate.
  intros H. now destruct (H json).
Qed.

Lemma buildStartExternals_passes (externals : option (list External.t)) :
  buildStartExternals externals = inr tt <-> Forall passes (default [] externals).
Proof.
  destruct externals as [l|]; simpl; [|split; [constructor | reflexivity]].
  split; [apply checkExternals_passed | apply checkExternals_ok].
Qed.

Lemma unit_result (r : JsError + unit) :
  (exists e, r = inl e) \/ r = inr tt.
Proof. destruct r as [e|[]]; eauto. Qed.

(** X21: [buildStart] succeeds exactly when the deprecated file option is not
    set, the template is a regular file or a file name is given, the
    favicon, if any, is a regular file, inject is no string other than head
    and body, every external passes its two checks, and modules and nomodule
    are booleans or absent. It then watches the template when it is a regular
    file, remembers whether the template path exists (be it a file or not),
    and warns once for each unknown option, in their order: an unknown option
    never makes it fail. *)
Theorem buildStart_passes (o : BuildStart.t) (st : BuildStart.done) :
  BuildStart.run existsSync isFile o = inr st
  <-> truthyStr (BuildStart.deprecatedFileOption o) = false
      /\ (regular (BuildStart.template o) = true
          \/ truthyStr (BuildStart.htmlFileName o) = true)
      /\ (truthyStr (BuildStart.favicon o) = true ->
          regular (default "" (BuildStart.favicon o)) = true)
      /\ (forall s, BuildStart.inject o = InjectString s -> s = "head" \/ s = "body")
      /\ Forall passes (default [] (BuildStart.externals o))
      /\ (forall json, BuildStart.modules o <> VOther json)
      /\ (forall json, BuildStart.nomodule o <> VOther json)
      /\ st = {| BuildStart.watchFiles :=
                   if regular (BuildStart.template o)
                   then [BuildStart.template o] else [];
                 BuildStart.templateIsFile := existsSync (BuildStart.template o);
                 BuildStart.warnings :=
                   map (fun k => "Ignoring unknown option " ++ quoted k)
                       (BuildStart.options o) |}.
Proof.
  rewrite <- checkInject_passes, <- buildStartExternals_passes.
  rewrite <- (checkBoolean_passes "modules"), <- (checkBoolean_passes "nomodule").
  unfold BuildStart.run, regular. split.
  - intros H.
    destruct (truthyStr (BuildStart.deprecatedFileOption o)); [discriminate|].
    split; [reflexivity|].
    destruct (negb (existsSync (BuildStart.template o) && isFile (BuildStart.template o))
              && negb (truthyStr (BuildStart.htmlFileName o))) eqn:Hw; [discriminate|].
    split.
    { apply andb_false_iff in Hw as [Hw|Hw]; apply negb_false_iff in Hw; auto. }
    destruct (truthyStr (BuildStart.favicon o)
              && negb (existsSync (default "" (BuildStart.favicon o))
                       && isFile (default "" (BuildStart.favicon o)))) eqn:Hf;
      [discriminate|].
    split.
    { intros Ht. rewrite Ht in Hf. simpl in Hf. now apply negb_false_iff in Hf. }
    destruct (unit_result (BuildStart.checkInject (BuildStart.inject o))) as [[e1 E]|E];
      rewrite E in H; [discriminate|]. split; [exact E|].
    destruct (unit_result (buildStartExternals (BuildStart.externals o))) as [[e2 E2]|E2];
      rewrite E2 in H; [discriminate|]. split; [exact E2|].
    destruct (unit_result (checkBoolean "modules" (BuildStart.modules o))) as [[e3 E3]|E3];
      rewrite E3 in H; [discriminate|]. split; [exact E3|].
    destruct (unit_result (checkBoolean "nomodule" (BuildStart.nomodule o))) as [[e4 E4]|E4];
      rewrite E4 in H; [discriminate|]. split; [exact E4|].
    now injection H as <-.
  - intros (Hdep & Hname & Hfav & -> & -> & -> & -> & ->).
    rewrite Hdep.
    assert (Hw : negb (existsSync (BuildStart.template o) && isFile (BuildStart.template o))
                 && negb (truthyStr (BuildStart.htmlFileName o)) = false).
    { destruct Hname as [-> | ->]; [reflexivity | apply andb_false_r]. }
    rewrite Hw.
    assert (Hf : truthyStr (BuildStart.favicon o)
                 && negb (existsSync (default "" (BuildStart.favicon o))
                          && isFile (default "" (BuildStart.favicon o))) = false).
    { destruct (truthyStr (BuildStart.favicon o)); [|reflexivity].
      now rewrite (Hfav eq_refl). }
    now rewrite Hf.
Qed.

End BuildStartChecks.

(** ** The head element through the decorators *)

Section HeadKept.

Variable attributes : string -> string -> option string.
Variable contentNodes : string -> list Node.
Variables t a : string.

Lemma exchangeChild_element (p : list nat) (new : Node) (cs : list Node) :
  exists cs', Dom.exchangeChild p new (HTMLElement t a cs) = HTMLElement t a cs'.
Proof. destruct p as [|i [|j q]]; simpl; eauto. Qed.

Lemma metaLoop_element (nodes : list (list nat * Node))
    (entries : list (string * string)) (cs : list Node) (gone : list (list nat)) :
  exists cs', fst (fold_left (metaEntry attributes nodes) entries
                     (HTMLElement t a cs, gone))
              = HTMLElement t a cs'.
Proof.
  revert cs gone. induction entries as [|[k c] entries IH]; intros cs gone;
    [now exists cs|].
  cbn [fold_left]. unfold metaEntry at 2.
  destruct (findByAttr attributes "name" k nodes) as [[p x]|].
  - case_bool_decide; [apply IH|].
    destruct (exchangeChild_element p (newMeta k c) cs) as [cs' ->]. apply IH.
  - rewrite appendChild_line_and. apply IH.
Qed.

Lemma applyMeta_element (meta : option (list (string * string))) (cs : list Node) :
  exists cs', applyMeta attributes meta (HTMLElement t a cs) = HTMLElement t a cs'.
Proof. destruct meta as [entries|]; [apply metaLoop_element | now exists cs]. Qed.

Lemma applyTitle_element (title : option string) (cs : list Node) :
  exists cs', applyTitle contentNodes title (HTMLElement t a cs) = HTMLElement t a cs'.
Proof.
  unfold applyTitle. destruct (truthyStr title); [|now exists cs].
  destruct (Dom.querySelector "title" (HTMLElement t a cs)) as [p|] eqn:Hq.
  - pose proof (querySelector_nonempty "title" _ _ Hq) as Hne.
    destruct p as [|i q]; [contradiction|]. rewrite alterAt_child. eauto.
  - rewrite appendChild_line_and, appendChild_element. simpl length.
    rewrite alterAt_child. eauto.
Qed.

Lemma applyFavicon_element (favicon : option string) (cs : list Node) :
  exists cs', applyFavicon attributes favicon (HTMLElement t a cs) = HTMLElement t a cs'.
Proof.
  unfold applyFavicon. destruct (truthyStr favicon); [|now exists cs].
  destruct (findByAttr attributes "rel" "shortcut icon" _) as [[p x]|].
  - apply exchangeChild_element.
  - rewrite appendChild_line_and. eauto.
Qed.

End HeadKept.

(** X14: the decorators change the children of the head element and nothing else
    of it: head stays the same object, an element with the tag name and the
    attributes it had. *)
Theorem decorate_keeps_head (attributes : string -> string -> option string)
    (contentNodes : string -> list Node) (o : Options) (favicons : list string)
    (d : Doc) (t a : string) (cs : list Node) :
  Dom.nodeAt (head d) (html d) = Some (HTMLElement t a cs) ->
  head (decorate attributes contentNodes o favicons d) = head d
  /\ exists cs',
      Dom.nodeAt (head d) (html (decorate attributes contentNodes o favicons d))
      = Some (HTMLElement t a cs').
Proof.
  intros Hat. split; [reflexivity|].
  unfold decorate, onHead. simpl.
  pose proof (nodeAt_alterAt (applyMeta attributes (meta o)) _ _ _ Hat) as H1.
  destruct (applyMeta_element attributes t a (meta o) cs) as [cs1 E1].
  rewrite E1 in H1.
  pose proof (nodeAt_alterAt (applyMarkers favicons) _ _ _ H1) as H2.
  rewrite applyMarkers_appends_element in H2.
  pose proof (nodeAt_alterAt (applyTitle contentNodes (title o)) _ _ _ H2) as H3.
  destruct (applyTitle_element contentNodes t a (title o)
              (cs1 ++ flat_map (fun f => [TextNode f; TextNode nl]) favicons))
    as [cs3 E3].
  rewrite E3 in H3.
  pose proof (nodeAt_alterAt (applyFavicon attributes (favicon o)) _ _ _ H3) as H4.
  destruct (applyFavicon_element attributes t a (favicon o) cs3) as [cs4 E4].
  rewrite E4 in H4. now exists cs4.
Qed.

Lemma decorate_keeps_head_witness :
  let d := openDoc describedTemplate in
  exists cs',
    Dom.nodeAt (head d)
      (html (decorate SimpleAttributes.attributes textContent decorating [] d))
    = Some (HTMLElement "head" "" cs').
Proof.
  intros d.
  destruct (decorate_keeps_head SimpleAttributes.attributes textContent decorating
              [] d "head" "" _ eq_refl) as [_ H].
  exact H.
Defined.

(** ** The title and the favicon link after their decorators *)

(** X16: after the title decorator has run with a title that is not empty, a
    query for a title element in head finds one (its tag name is title in
    whatever letter case it had), and its child nodes are those [set_content]
    makes of the configured title. *)
Theorem applyTitle_result (contentNodes : string -> list Node)
    (title : option string) (t a : string) (cs : list Node) :
  truthyStr title = true ->
  let head' := applyTitle contentNodes title (HTMLElement t a cs) in
  exists p x,
    Dom.querySelector "title" head' = Some p
    /\ Dom.nodeAt p head' = Some x
    /\ Dom.hasTag "title" x = true
    /\ Dom.childNodes x = contentNodes (default "" title).
Proof.
  intros Ht head'. subst head'. unfold applyTitle. rewrite Ht.
  set (s := default "" title).
  assert (Hkeep : forall x, Dom.hasTag "title" (set_content contentNodes s x)
                            = Dom.hasTag "title" x)
    by (intros x; apply hasTag_setChildNodes).
  assert (Hset : forall h0 p, Dom.querySelector "title" h0 = Some p ->
            exists x,
              Dom.querySelector "title" (Dom.alterAt (set_content contentNodes s) p h0)
              = Some p
              /\ Dom.nodeAt p (Dom.alterAt (set_content contentNodes s) p h0) = Some x
              /\ Dom.hasTag "title" x = true
              /\ Dom.childNodes x = contentNodes s).
  { intros h0 p Hq.
    destruct (querySelector_found_at "title" h0 p Hq) as (x & Hx & Htag).
    exists (set_content contentNodes s x).
    split; [now apply querySelector_alterAt|].
    split; [now apply nodeAt_alterAt|].
    split; [now rewrite Hkeep|].
    destruct x as [t' a' l|]; [reflexivity | discriminate]. }
  destruct (Dom.querySelector "title" (HTMLElement t a cs)) as [p|] eqn:Hq.
  - destruct (Hset _ p Hq) as (x & H). now exists p, x.
  - rewrite appendChild_line_and, appendChild_element.
    assert (Hlen : length (Dom.childNodes (HTMLElement t a (cs ++ [TextNode nl])))
                   = S (length cs)).
    { simpl. rewrite length_app. simpl. lia. }
    rewrite Hlen.
    pose proof (querySelector_appended "title" t a cs (HTMLElement "title" "" [])
                  Hq eq_refl) as Hnew.
    destruct (Hset _ _ Hnew) as (x & H). now exists [S (length cs)], x.
Qed.

Lemma applyTitle_result_witness :
  truthyStr (Some "Demo") = true
  /\ exists p x,
      Dom.nodeAt p (applyTitle textContent (Some "Demo")
                      (HTMLElement "head" "" [HTMLElement "TITLE" "" [TextNode "old"]]))
      = Some x
      /\ Dom.childNodes x = [TextNode "Demo"].
Proof.
  split; [reflexivity|].
  destruct (applyTitle_result textContent (Some "Demo") "head" ""
              [HTMLElement "TITLE" "" [TextNode "old"]] eq_refl)
    as (p & x & _ & H1 & _ & H2).
  now exists p, x.
Defined.

(** X17: after the favicon decorator has run with a favicon, and a reader that
    gives back the rel of the new link: a search for the link of rel
    [shortcut icon] in head finds an element, and when that element is a
    child of head it is the new link, whose href is the base name of the
    favicon path. *)
Theorem applyFavicon_result (attributes : string -> string -> option string)
    (favicon : option string) (t a : string) (cs : list Node) :
  let link := newLink "shortcut icon" (Path.basename (default "" favicon)) in
  let head' := applyFavicon attributes favicon (HTMLElement t a cs) in
  truthyStr favicon = true ->
  attributes (rawAttrsOf link) "rel" = Some "shortcut icon" ->
  exists p x,
    findByAttr attributes "rel" "shortcut icon" (Dom.querySelectorAll "link" head')
    = Some (p, x)
    /\ forall i, p = [i] -> x = link /\ Dom.nodeAt [i] head' = Some link.
Proof.
  intros link head' Ht Hread. subst head'. unfold applyFavicon. rewrite Ht.
  fold link.
  assert (Hself : selfIs attributes "link" "rel" "shortcut icon" link = true)
    by (apply selfIs_read; [reflexivity | exact Hread]).
  assert (Hat : forall cur i,
            firstMatch attributes "link" "rel" "shortcut icon" cur = Some (i, true) ->
            cur !! i = Some link ->
            exists p x,
              findByAttr attributes "rel" "shortcut icon"
                (Dom.querySelectorAll "link" (HTMLElement t a cur)) = Some (p, x)
              /\ forall j, p = [j] ->
                           x = link /\ Dom.nodeAt [j] (HTMLElement t a cur) = Some link).
  { intros cur i Hfirst Hi.
    pose proof (find_firstMatch attributes "link" "rel" "shortcut icon" t a cur) as H.
    rewrite Hfirst in H. destruct H as (c & Hc & _ & Hfound).
    rewrite Hi in Hc. injection Hc as <-.
    exists [i], link. split; [exact Hfound|].
    intros j Hj. injection Hj as <-. split; [reflexivity|].
    simpl. now rewrite Hi. }
  pose proof (find_firstMatch attributes "link" "rel" "shortcut icon" t a cs) as Hfind.
  destruct (firstMatch attributes "link" "rel" "shortcut icon" cs)
    as [[i [|]]|] eqn:Hfirst.
  - destruct Hfind as (c & Hc & _ & Hfound).
    unfold findByAttr in *. rewrite Hfound, exchangeChild_child.
    apply (Hat _ i).
    + now apply firstMatch_insert_self with (b := true).
    + apply list_lookup_insert_eq. now apply lookup_lt_Some with (x := c).
  - destruct Hfind as (q & n & Hq & Hfound).
    unfold findByAttr in *. rewrite Hfound, (exchangeChild_nested i q link _ Hq).
    exists (i :: q), n. split; [exact Hfound|].
    intros j Hj. injection Hj as _ ->. contradiction.
  - unfold findByAttr in *. rewrite Hfind, appendChild_line_and.
    apply (Hat _ (S (length cs))).
    + now apply firstMatch_appended.
    + rewrite lookup_app_r by lia.
      now replace (S (length cs) - length cs) with 1 by lia.
Qed.

Lemma applyFavicon_result_witness :
  let favicon := Some "img/favicon.ico" in
  (truthyStr favicon = true
   /\ SimpleAttributes.attributes
        (rawAttrsOf (newLink "shortcut icon" (Path.basename "img/favicon.ico")))
        "rel" = Some "shortcut icon")
  /\ exists p x,
      findByAttr SimpleAttributes.attributes "rel" "shortcut icon"
        (Dom.querySelectorAll "link"
           (applyFavicon SimpleAttributes.attributes favicon (HTMLElement "head" "" [])))
      = Some (p, x).
Proof.
  intros favicon. split; [split; reflexivity|].
  destruct (applyFavicon_result SimpleAttributes.attributes favicon "head" "" []
              eq_refl eq_refl) as (p & x & H & _).
  now exists p, x.
Defined.

(** * Statements set right *)

(** ** Nodes appended to head and body, whatever their places in the tree *)

Lemma nodeAt_app (p r : list nat) (n : Node) :
  Dom.nodeAt (p ++ r) n = Dom.nodeAt p n ≫= Dom.nodeAt r.
Proof.
  revert n. induction p as [|i p IH]; intros n; [reflexivity|]. simpl.
  destruct (Dom.childNodes n !! i) as [c|]; [apply IH | reflexivity].
Qed.

(** A path that goes on below an element goes through one of its children. *)
Lemma nodeAt_below_bound (p r : list nat) (i : nat) (n : Node) t a (cs : list Node) :
  Dom.nodeAt p n = Some (HTMLElement t a cs) ->
  is_Some (Dom.nodeAt (p ++ i :: r) n) -> i < length cs.
Proof.
  intros Hp [y Hy]. rewrite nodeAt_app, Hp in Hy. simpl in Hy.
  destruct (cs !! i) as [c|] eqn:Hc; [|discriminate].
  now apply lookup_lt_Some with (x := c).
Qed.

(** A child appended at another path [q]: the element at [p] keeps the
    nodes it has got behind the children it started with. *)
Lemma nodeAt_append_elsewhere (c : Node) (p : list nat) :
  forall (q : list nat) (n : Node) t a (O A : list Node),
    Dom.nodeAt p n = Some (HTMLElement t a (O ++ A)) ->
    q <> p ->
    (forall i r, q = (p ++ i :: r)%list -> i < length O) ->
    exists O', length O' = length O
               /\ Dom.nodeAt p (Dom.alterAt (Dom.appendChild c) q n)
                  = Some (HTMLElement t a (O' ++ A)).
Proof.
  induction p as [|j p IH]; intros q n t a O A Hat Hne Hbound.
  - simpl in Hat. injection Hat as ->.
    destruct q as [|i r]; [contradiction|].
    rewrite alterAt_child. simpl Dom.nodeAt.
    rewrite alter_app_l by (apply (Hbound i r); reflexivity).
    eexists. split; [apply length_alter | reflexivity].
  - destruct n as [tn an cs|s]; [|discriminate]. simpl in Hat.
    destruct (cs !! j) as [ch|] eqn:Hch; [|discriminate]. simpl in Hat.
    destruct q as [|i q].
    + exists O. split; [reflexivity|]. simpl.
      now rewrite (lookup_app_l_Some _ _ _ _ Hch).
    + rewrite alterAt_child. simpl Dom.nodeAt.
      destruct (decide (i = j)) as [->|Hij].
      * rewrite list_lookup_alter_eq, Hch. simpl.
        apply IH; [exact Hat | congruence |].
        intros i0 r ->. apply (Hbound i0 r). reflexivity.
      * rewrite list_lookup_alter_ne by exact Hij. rewrite Hch. simpl.
        exists O. split; [reflexivity | exact Hat].
Qed.

Section Kept.

Variables (d0 : Doc) (path : list nat) (t a : string) (cs : list Node).
Hypothesis Hpath : Dom.nodeAt path (html d0) = Some (HTMLElement t a cs).
Hypothesis Hhead : is_Some (Dom.nodeAt (head d0) (html d0)).
Hypothesis Hbody : is_Some (Dom.nodeAt (body d0) (html d0)).

Let kept := keptAt d0 path t a (length cs).

Lemma kept_start : kept d0 [].
Proof.
  split; [reflexivity|]. split; [reflexivity|].
  exists cs. split; [reflexivity|]. now rewrite app_nil_r.
Qed.

Lemma parentPath_valid (q : Parent) : is_Some (Dom.nodeAt (parentPath d0 q) (html d0)).
Proof. destruct q; assumption. Qed.

(** One child appended to head or to body. *)
Lemma kept_appendTo (q : Parent) (x : Node) (d : Doc) (A : list Node) :
  kept d A ->
  exists B, kept (appendTo q x d) (A ++ B)
            /\ (parentPath d0 q = path -> B = [x]).
Proof.
  intros (Hh & Hb & O & Hlen & Hat).
  assert (Hq : parentPath d q = parentPath d0 q) by (destruct q; assumption).
  destruct (decide (parentPath d0 q = path)) as [Heq|Hne].
  - exists [x]. split; [|reflexivity].
    split; [exact Hh|]. split; [exact Hb|].
    exists O. split; [exact Hlen|].
    unfold appendTo. simpl. rewrite Hq, Heq.
    rewrite (nodeAt_alterAt _ _ _ _ Hat). simpl. now rewrite app_assoc.
  - exists []. split; [|contradiction].
    split; [exact Hh|]. split; [exact Hb|].
    destruct (nodeAt_append_elsewhere x path (parentPath d0 q) (html d) t a O A
                Hat Hne) as (O' & Hlen' & Hat').
    { intros i r Hir. rewrite Hlen.
      apply (nodeAt_below_bound path r i (html d0) t a cs Hpath).
      rewrite <- Hir. apply parentPath_valid. }
    exists O'. split; [congruence|].
    unfold appendTo. simpl. now rewrite Hq, app_nil_r.
Qed.

(** A tag after a line break, appended to head or to body. *)
Lemma kept_tag (q : Parent) (x : Node) (d : Doc) (A : list Node) :
  kept d A ->
  exists B, kept (appendTo q x (addNewLine q d)) (A ++ B)
            /\ (parentPath d0 q = path -> B = [TextNode nl; x]).
Proof.
  intros H. unfold addNewLine.
  destruct (kept_appendTo q (TextNode nl) d A H) as (B1 & H1 & E1).
  destruct (kept_appendTo q x _ _ H1) as (B2 & H2 & E2).
  exists (B1 ++ B2)%list. split; [now rewrite app_assoc|].
  intros Heq. now rewrite (E1 Heq), (E2 Heq).
Qed.

Lemma kept_emitter (modules nomodule : option bool) (url type : string)
    (pos : JsInject) (crossorigin : option string) (d : Doc) (A : list Node) :
  kept d A ->
  exists B, kept (injectCSSandJSFactory modules nomodule url type pos crossorigin d)
              (A ++ B).
Proof.
  intros H. unfold injectCSSandJSFactory.
  destruct (String.eqb type "css");
    match goal with
    | |- context [appendTo ?q ?x (addNewLine ?q d)] =>
        destruct (kept_tag q x d A H) as (B & HB & _)
    end; now exists B.
Qed.

Lemma kept_externals (modules nomodule : option bool)
    (externals : option (list External.t)) (processPos : string) (d : Doc)
    (A : list Node) :
  kept d A ->
  exists B, kept (extrenalsProcessorFactory (injectCSSandJSFactory modules nomodule)
                    externals processPos d) (A ++ B).
Proof.
  destruct externals as [l|]; [|intros H; exists []; now rewrite app_nil_r].
  unfold extrenalsProcessorFactory. revert d A.
  induction l as [|e l IH]; intros d A H; [exists []; now rewrite app_nil_r|].
  cbn [fold_left]. case_bool_decide; [|now apply IH].
  destruct (kept_emitter modules nomodule (External.file e) (externalType e)
              InjectUndefined (External.crossorigin e) d A H) as (B1 & H1).
  destruct (IH _ _ H1) as (B2 & H2).
  exists (B1 ++ B2)%list. now rewrite app_assoc.
Qed.

Lemma kept_file (o : Options) (idx : NameIndex) (preload : JsPreload)
    (prefix : string) (f : OutputFile) (d d' : Doc) (A : list Node) :
  kept d A ->
  injectFile o idx preload prefix f d = inr d' ->
  exists B, kept d' (A ++ B).
Proof.
  intros H. unfold injectFile.
  destruct (JsObject.has _ (entries idx)).
  { intros E. injection E as <-. now apply kept_emitter. }
  destruct (JsObject.has _ (dynamicEntries idx));
    [|intros E; injection E as <-; exists []; now rewrite app_nil_r].
  destruct (preloadHas preload _) as [e|[|]]; [discriminate| |].
  - destruct (extensionToType _) as [linkType|].
    + intros E. injection E as <-.
      destruct (kept_tag Head (preloadLink (prefix ++ fileName f) linkType) d A H)
        as (B & HB & _).
      now exists B.
    + intros E. injection E as <-. exists []. now rewrite app_nil_r.
  - intros E. injection E as <-. exists []. now rewrite app_nil_r.
Qed.

Lemma kept_files (o : Options) (idx : NameIndex) (preload : JsPreload)
    (prefix : string) (files : list OutputFile) :
  forall d d' A,
    kept d A ->
    forEachFile (injectFile o idx preload prefix) files d = inr d' ->
    exists B, kept d' (A ++ B).
Proof.
  induction files as [|f files IH]; intros d d' A H E; simpl in E.
  - injection E as <-. exists []. now rewrite app_nil_r.
  - destruct (injectFile o idx preload prefix f d) as [e|d1] eqn:Hf; [discriminate|].
    destruct (kept_file o idx preload prefix f d d1 A H Hf) as (B1 & H1).
    destruct (IH d1 d' _ H1 E) as (B2 & H2).
    exists (B1 ++ B2)%list. now rewrite app_assoc.
Qed.

End Kept.

(** ** Co-named files in the returned document *)

Section CoNamed.

Variables (o : Options) (idx : NameIndex) (prefix : string) (s : gset string).

Let step := injectFile o idx (PreloadSet s) prefix.

Lemma injectFile_set_total (f : OutputFile) (d : Doc) : exists d', step f d = inr d'.
Proof.
  destruct (step f d) as [e|d'] eqn:E; [|now exists d'].
  destruct (injectFile_error _ _ _ _ _ _ _ E) as (_ & Hno & _).
  now destruct (Hno s).
Qed.

Lemma forEachFile_set_total (files : list OutputFile) (d : Doc) :
  exists d', forEachFile step files d = inr d'.
Proof.
  revert d. induction files as [|f files IH]; intros d; [now exists d|].
  simpl. destruct (injectFile_set_total f d) as [d1 ->]. apply IH.
Qed.

Lemma forEachFile_app (run : OutputFile -> Doc -> JsError + Doc)
    (l1 l2 : list OutputFile) (d : Doc) :
  forEachFile run (l1 ++ l2) d
  = match forEachFile run l1 d with
    | inl e => inl e
    | inr d1 => forEachFile run l2 d1
    end.
Proof.
  revert d. induction l1 as [|f l1 IH]; intros d; [reflexivity|].
  simpl. destruct (run f d); [reflexivity | apply IH].
Qed.

End CoNamed.

Lemma entryTag_fileTag (o : Options) (f : OutputFile) :
  entryTag o (extension f) (normalizePrefix (onlinePath o) ++ fileName f)
  = fileTag o f.
Proof.
  unfold entryTag, fileTag.
  destruct (decide (extension f = "css")); reflexivity.
Qed.

(** C4, as stated, fails in two situations. With preload the value true and
    a dynamic chunk ahead of them in the bundle, the entry [app.js] and the
    co-named [app.css] get no tag: the emission stops at the call of [has].
    With inject the value false no generated file is looked at. *)
Lemma conamed_files_not_always_injected :
  ~ conamedInjected preloadTrue appBundle emptyDoc
  /\ ~ conamedInjected injectFalse appBundle emptyDoc.
Proof.
  assert (He : chunk "app.js" "app" true false ∈ appBundle)
    by (apply list_elem_of_further, list_elem_of_here).
  assert (Hf : asset "app.css" ∈ appBundle)
    by (do 2 apply list_elem_of_further; apply list_elem_of_here).
  split; intros H;
    destruct (H (chunk "app.js" "app" true false) (asset "app.css")
                He eq_refl eq_refl Hf eq_refl) as (d' & Hrun & Hheld).
  - vm_compute in Hrun. discriminate Hrun.
  - vm_compute in Hrun. injection Hrun as <-.
    destruct Hheld as (t & a & before & after & Hat).
    vm_compute in Hat. injection Hat as _ _ Hcs.
    destruct before; discriminate Hcs.
Qed.

(** C4, amended: when inject is not false and the preload option is absent,
    false, an array or a set, so that the emission raises nothing, then for
    a chunk marked isEntry among the files the returned document holds the
    tag of every file of its stem, the chunk itself and a co-named file of
    any kind and flags: a stylesheet link or a script element, after a line
    break, among the children of the element the placement names, with the
    normalized onlinePath followed by the fileName as it is for URL. *)
Theorem conamed_files_in_document (o : Options) (files : list OutputFile)
    (e f : OutputFile) (d : Doc) (s : gset string)
    (th ah tb ab : string) (csh csb : list Node) :
  e ∈ files -> isChunk e = true -> isEntry e = true ->
  f ∈ files -> stem f = stem e ->
  inject o <> InjectBool false ->
  normalizePreload (preload o) = PreloadSet s ->
  Dom.nodeAt (head d) (html d) = Some (HTMLElement th ah csh) ->
  Dom.nodeAt (body d) (html d) = Some (HTMLElement tb ab csb) ->
  exists d',
    injectAll o files d = inr d'
    /\ holdsTag (parentPath d (placementBySpec (inject o) (extension f)))
         (fileTag o f) (html d').
Proof.
  intros He Hchunk Hentry Hf Hstem Hinject Hnorm Hhead Hbody.
  set (P := placementBySpec (inject o) (extension f)).
  assert (Hpath : exists t a cs,
             Dom.nodeAt (parentPath d P) (html d) = Some (HTMLElement t a cs)).
  { destruct P; simpl; eauto. }
  destruct Hpath as (t & a & cs & Hpath).
  assert (Hvh : is_Some (Dom.nodeAt (head d) (html d))) by (rewrite Hhead; eauto).
  assert (Hvb : is_Some (Dom.nodeAt (body d) (html d))) by (rewrite Hbody; eauto).
  pose proof (kept_start d (parentPath d P) t a cs Hpath) as H0.
  destruct (kept_externals d _ t a cs Hpath Hvh Hvb (modules o) (nomodule o)
              (externals o) "before" d [] H0) as (B0 & Hb).
  simpl app in Hb.
  set (d0 := extrenalsProcessorFactory _ (externals o) "before" d) in *.
  apply list_elem_of_split in Hf as (l1 & l2 & Hsplit).
  set (prefix := normalizePrefix (onlinePath o)).
  set (idx := classify files).
  assert (Hin : JsObject.has (stem f) (entries idx) = true).
  { rewrite Hstem. now apply fold_entries_entry. }
  destruct (forEachFile_set_total o idx prefix s l1 d0) as [d1 H1].
  destruct (kept_files d _ t a cs Hpath Hvh Hvb o idx (PreloadSet s) prefix l1
              d0 d1 B0 Hb H1) as (B1 & Hk1).
  assert (Hstep : injectFile o idx (PreloadSet s) prefix f d1
                  = inr (appendTo P (fileTag o f) (addNewLine P d1))).
  { unfold injectFile. fold (stem f). rewrite Hin. fold (extension f).
    f_equal. rewrite injectCSSandJS_entry. fold P.
    now rewrite entryTag_fileTag. }
  destruct (kept_tag d _ t a cs Hpath Hvh Hvb P (fileTag o f) d1 _ Hk1)
    as (B & Hk2 & HB).
  rewrite (HB eq_refl) in Hk2.
  destruct (forEachFile_set_total o idx prefix s l2
              (appendTo P (fileTag o f) (addNewLine P d1))) as [d3 H3].
  destruct (kept_files d _ t a cs Hpath Hvh Hvb o idx (PreloadSet s) prefix l2
              _ d3 _ Hk2 H3) as (B2 & Hk3).
  destruct (kept_externals d _ t a cs Hpath Hvh Hvb (modules o) (nomodule o)
              (externals o) "after" d3 _ Hk3) as (B3 & Hk4).
  assert (Hgen : injectGenerated o files d0 = inr d3).
  { unfold injectGenerated. rewrite Hnorm. fold idx prefix.
    assert (Hrun : forEachFile (injectFile o idx (PreloadSet s) prefix) files d0
                   = inr d3).
    { rewrite Hsplit, forEachFile_app, H1. simpl. now rewrite Hstep. }
    destruct (inject o) as [|[|]|]; congruence. }
  eexists. split.
  - unfold injectAll. fold d0. rewrite Hgen. reflexivity.
  - destruct Hk4 as (_ & _ & O & _ & Hat).
    exists t, a, (O ++ B0 ++ B1)%list, (B2 ++ B3)%list.
    rewrite Hat. do 2 f_equal. now rewrite <- !app_assoc.
Qed.

Lemma conamed_files_in_document_witness :
  let e := chunk "app.a1.js" "app" true false in
  let f := asset "app.a1.css" in
  let o := {| inject := InjectUndefined; title := None; favicon := None;
              meta := None; externals := None; preload := PreloadUndefined;
              modules := None; nomodule := None; onlinePath := Some "cdn" |} in
  (e ∈ [e; f] /\ isChunk e = true /\ isEntry e = true /\ f ∈ [e; f]
   /\ stem f = stem e /\ inject o <> InjectBool false
   /\ normalizePreload (preload o) = PreloadSet ∅)
  /\ exists d',
      injectAll o [e; f] emptyDoc = inr d'
      /\ holdsTag [0]
           (HTMLElement "link" ("rel=" ++ quoted "stylesheet" ++ " href="
                                ++ quoted "cdn/app.a1.css") [])
           (html d').
Proof.
  intros e f o.
  assert (He : e ∈ [e; f]) by apply list_elem_of_here.
  assert (Hf : f ∈ [e; f]) by (apply list_elem_of_further, list_elem_of_here).
  assert (Hi : inject o <> InjectBool false) by discriminate.
  assert (Hn : normalizePreload (preload o) = PreloadSet ∅) by reflexivity.
  split; [repeat split; assumption || reflexivity|].
  exact (conamed_files_in_document o [e; f] e f emptyDoc ∅ "head" "" "body" "" [] []
           He eq_refl eq_refl Hf eq_refl Hi Hn eq_refl eq_refl).
Defined.

(** ** Head and body below a child of html *)

(** C7, as stated, fails on a template whose head and body stand below a
    child of html: html has no head and no body child, the query finds both
    at depth two, and nothing is created; the tree stays as it was parsed
    and head and body are the elements found. *)
Lemma nested_head_not_created :
  ~ createdForChildless nestedTemplate
  /\ openDoc nestedTemplate
     = {| html := nestedTemplate; head := [0; 0]; body := [0; 1] |}.
Proof.
  split; [|reflexivity].
  intros H. destruct H as (rest & Hrest).
  - repeat constructor.
  - vm_compute in Hrest. discriminate Hrest.
Qed.

(** ** A meta name with a character reference *)

